(** * Gesture-driven particle animation

    A shallow embedding of the state updater of [App.tsx] ([processFrame])
    and of the per-tick pass of [Experience.update], with the constants of
    [constants.ts] and the types of [types.ts].

    JavaScript numbers are embedded as real numbers: [+], [-], [*], [/],
    [Math.sqrt], [Math.cos], [Math.sin] and [Math.PI] are the exact
    operations of [R], so rounding, infinities and NaN are outside the
    model.  Where rounding decides the outcome, in the long run of the
    smoother, the two [lerp] calls are embedded a second time on IEEE
    binary64 numbers (module [Doubles]).  Counters that only ever hold
    natural numbers (array indices, [activePhotoIndex]) are [nat]. *)

From Stdlib Require Import Reals Lra Lia List Arith Bool.
From Stdlib Require String Ascii Floats.
Import ListNotations.

Open Scope R_scope.

(** ** Numbers *)

(** [a < b] of JavaScript, as a boolean. *)
Definition ltb (a b : R) : bool := if Rlt_dec a b then true else false.

(** [a > b] of JavaScript. *)
Definition gtb (a b : R) : bool := ltb b a.

Infix "<?" := ltb (at level 70, no associativity) : R_scope.
Infix ">?" := gtb (at level 70, no associativity) : R_scope.

(** [Math.hypot(a, b, c)]. *)
Definition hypot (a b c : R) : R := sqrt (a * a + b * b + c * c).

(** ** types.ts *)

Inductive AppMode : Set := TREE | SCATTER | FOCUS.

Definition AppMode_eqb (a b : AppMode) : bool :=
  match a, b with
  | TREE, TREE | SCATTER, SCATTER | FOCUS, FOCUS => true
  | _, _ => false
  end.

Record State : Type := mkState {
  mode : AppMode;
  handX : R;
  handY : R;
  isPinching : bool;
  isFist : bool;
  isOpen : bool;
  activePhotoIndex : nat;
  loading : bool;
  uiHidden : bool
}.

(** ** constants.ts *)

Definition PARTICLE_COUNT : nat := 1500.
Definition DUST_COUNT : nat := 2500.

Module GESTURE_THRESHOLDS.
Definition PINCH : R := 0.05.
Definition FIST : R := 0.25.
Definition OPEN : R := 0.4.
End GESTURE_THRESHOLDS.

(** ** App.tsx: [processFrame] *)

(** One landmark of the hand detector. *)
Module NormalizedLandmark.
Record t : Type := mk { x : R; y : R; z : R }.
End NormalizedLandmark.

(** The landmarks of one hand, [results.landmarks[k]]. *)
Definition Hand : Type := list NormalizedLandmark.t.

(** What [processFrame] finds when it runs: the video or the landmarker is
    not ready, or [detectForVideo] has returned [results.landmarks]. *)
Inductive VideoFrame : Type :=
| NotReady
| Detected (landmarks : list Hand).

(** The initial state of [useState]. *)
Definition initialState : State :=
  {| mode := TREE; handX := 0; handY := 0;
     isPinching := false; isFist := false; isOpen := false;
     activePhotoIndex := 0; loading := true; uiHidden := false |}.

(** The function handed to [setState] (lines 67-89): [handX], [handY],
    [pinchDist] and [avgDist] are the values captured from the frame. *)
Definition updater (hX hY pinchDist avgDist : R) (prev : State) : State :=
  let '(nextMode, nextPhotoIdx) :=
    if pinchDist <? GESTURE_THRESHOLDS.PINCH then
      if negb (AppMode_eqb (mode prev) FOCUS)
      then (FOCUS, (activePhotoIndex prev + 1)%nat)
      else (mode prev, activePhotoIndex prev)
    else if avgDist <? GESTURE_THRESHOLDS.FIST then
      (TREE, activePhotoIndex prev)
    else if avgDist >? GESTURE_THRESHOLDS.OPEN then
      (SCATTER, activePhotoIndex prev)
    else (mode prev, activePhotoIndex prev) in
  {| mode := nextMode; handX := hX; handY := hY;
     isPinching := isPinching prev; isFist := isFist prev;
     isOpen := isOpen prev; activePhotoIndex := nextPhotoIdx;
     loading := loading prev; uiHidden := uiHidden prev |}.

(** Distance between two landmarks, as the two [Math.hypot] calls take it. *)
Definition landmarkDist (a b : NormalizedLandmark.t) : R :=
  hypot (NormalizedLandmark.x a - NormalizedLandmark.x b)
        (NormalizedLandmark.y a - NormalizedLandmark.y b)
        (NormalizedLandmark.z a - NormalizedLandmark.z b).

(** [fingers.reduce((acc, f) => acc + hypot(f - wrist), 0) / 4]. *)
Definition avgDistOf (wrist : NormalizedLandmark.t)
    (fingers : list NormalizedLandmark.t) : R :=
  fold_left (fun acc f => acc + landmarkDist f wrist) fingers 0 / 4.

(** The measurements [processFrame] takes of a hand (lines 48-65):
    [(handX, handY, pinchDist, avgDist)].  Reading a field of a landmark
    that the array does not hold throws; that is [None]. *)
Definition measure (landmarks : Hand) : option (R * R * R * R) :=
  match nth_error landmarks 0, nth_error landmarks 4,
        nth_error landmarks 8, nth_error landmarks 12,
        nth_error landmarks 16, nth_error landmarks 20,
        nth_error landmarks 9 with
  | Some wrist, Some thumb, Some index, Some middle,
    Some ring, Some pinky, Some center =>
      let hX := (NormalizedLandmark.x center - 0.5) * 2 in
      let hY := (NormalizedLandmark.y center - 0.5) * 2 in
      let pinchDist := landmarkDist thumb index in
      let fingers := [index; middle; ring; pinky] in
      let avgDist := avgDistOf wrist fingers in
      Some (hX, hY, pinchDist, avgDist)
  | _, _, _, _, _, _, _ => None
  end.

(** The effect of one run of [processFrame] on the React state: [Some] of
    the state after it, or [None] when the run throws. *)
Definition processFrame (frame : VideoFrame) (prev : State) : option State :=
  match frame with
  | NotReady => Some prev
  | Detected [] => Some prev
  | Detected (landmarks :: _) =>
      match measure landmarks with
      | Some (hX, hY, pinchDist, avgDist) =>
          Some (updater hX hY pinchDist avgDist prev)
      | None => None
      end
  end.

(** ** The classifier as the specification words it *)

Module Spec.

Inductive Gesture : Set := PINCH | FIST | OPEN | NONE.

(** Decision of step 3: pinch, then fist, then open, first match wins. *)
Definition classify (pinchDistance avgFingerSpread : R) : Gesture :=
  if pinchDistance <? 0.05 then PINCH
  else if avgFingerSpread <? 0.25 then FIST
  else if avgFingerSpread >? 0.4 then OPEN
  else NONE.

(** The mode transition rule, on the pair [(mode, activePhotoIndex)]. *)
Definition transition (g : Gesture) (m : AppMode) (k : nat) : AppMode * nat :=
  match g with
  | PINCH => match m with
             | FOCUS => (FOCUS, k)
             | _ => (FOCUS, S k)
             end
  | FIST => (TREE, k)
  | OPEN => (SCATTER, k)
  | NONE => (m, k)
  end.

End Spec.

(** ** three.js values used by [Experience] *)

Module Vector3.
Record t : Type := mk { x : R; y : R; z : R }.

(** [v.lerp(w, alpha)]: each component moves by [alpha] of its gap. *)
Definition lerp (v w : t) (alpha : R) : t :=
  mk (x v + (x w - x v) * alpha)
     (y v + (y w - y v) * alpha)
     (z v + (z w - z v) * alpha).

(** Euclidean distance, [v.distanceTo(w)]. *)
Definition distanceTo (v w : t) : R :=
  sqrt ((x v - x w) * (x v - x w) + (y v - y w) * (y v - y w)
        + (z v - z w) * (z v - z w)).
End Vector3.

Module Euler.
Record t : Type := mk { x : R; y : R; z : R }.
End Euler.

Module Quaternion.
Record t : Type := mk { x : R; y : R; z : R; w : R }.
End Quaternion.

(** [THREE.MathUtils.lerp(x, y, t)]. *)
Definition MathUtils_lerp (a b t : R) : R := (1 - t) * a + t * b.

(** The quaternion operations of three.js that [update] calls.  Their code
    is the library's, not this repository's, so they are an interface:
    [slerp q r alpha] is [q.slerp(r, alpha)], [setFromEuler e] is
    [new Quaternion().setFromEuler(e)], and [setFromQuaternion q] is the
    Euler angles an [Object3D] stores after its quaternion is set to [q]. *)
Class QuaternionOps : Type := {
  slerp : Quaternion.t -> Quaternion.t -> R -> Quaternion.t;
  setFromEuler : Euler.t -> Quaternion.t;
  setFromQuaternion : Quaternion.t -> Euler.t
}.

(** The transform of an [Object3D].  [rotation] and [quaternion] are two
    views of one orientation: three.js rewrites either when the other is
    assigned. *)
Record Mesh : Type := mkMesh {
  position : Vector3.t;
  rotation : Euler.t;
  quaternion : Quaternion.t;
  scale : Vector3.t
}.

Inductive ParticleType : Set := PARTICLE | PHOTO | DUST.

Record ParticleData : Type := mkParticle {
  mesh : Mesh;
  type : ParticleType;
  targetPosition : Vector3.t;
  targetRotation : Euler.t;
  targetScale : Vector3.t;
  velocity : Vector3.t;
  rotationSpeed : Vector3.t
}.

(** The part of an [Experience] that [update] reads and writes: the
    rotation of [mainGroup] and the particle array. *)
Record Experience : Type := mkExperience {
  mainGroup_rotation : Euler.t;
  particles : list ParticleData
}.

(** *** Field assignments *)

Definition with_position (v : Vector3.t) (m : Mesh) : Mesh :=
  mkMesh v (rotation m) (quaternion m) (scale m).

Definition with_scale (v : Vector3.t) (m : Mesh) : Mesh :=
  mkMesh (position m) (rotation m) (quaternion m) v.

(** Assigning a component of [mesh.rotation] refreshes [mesh.quaternion]. *)
Definition with_rotation `{QuaternionOps} (e : Euler.t) (m : Mesh) : Mesh :=
  mkMesh (position m) e (setFromEuler e) (scale m).

(** Changing [mesh.quaternion] refreshes [mesh.rotation]. *)
Definition with_quaternion `{QuaternionOps} (q : Quaternion.t) (m : Mesh) : Mesh :=
  mkMesh (position m) (setFromQuaternion q) q (scale m).

Definition with_mesh (m : Mesh) (p : ParticleData) : ParticleData :=
  mkParticle m (type p) (targetPosition p) (targetRotation p)
             (targetScale p) (velocity p) (rotationSpeed p).

Definition with_targetPosition (v : Vector3.t) (p : ParticleData) : ParticleData :=
  mkParticle (mesh p) (type p) v (targetRotation p)
             (targetScale p) (velocity p) (rotationSpeed p).

Definition with_targetRotation (e : Euler.t) (p : ParticleData) : ParticleData :=
  mkParticle (mesh p) (type p) (targetPosition p) e
             (targetScale p) (velocity p) (rotationSpeed p).

Definition with_targetScale (v : Vector3.t) (p : ParticleData) : ParticleData :=
  mkParticle (mesh p) (type p) (targetPosition p) (targetRotation p)
             v (velocity p) (rotationSpeed p).

(** *** Arrays *)

(** [array.map((a, i) => f(i, a))], counting from [i]. *)
Fixpoint mapi_from {A B : Type} (f : nat -> A -> B) (i : nat) (l : list A) : list B :=
  match l with
  | [] => []
  | a :: l' => f i a :: mapi_from f (S i) l'
  end.

Definition ParticleType_eqb (a b : ParticleType) : bool :=
  match a, b with
  | PARTICLE, PARTICLE | PHOTO, PHOTO | DUST, DUST => true
  | _, _ => false
  end.

(** [particles.filter(p => p.type === 'PHOTO')].  The array holds object
    references; a reference is the position of the object in [particles]. *)
Fixpoint photosFrom (i : nat) (ps : list ParticleData) : list nat :=
  match ps with
  | [] => []
  | p :: ps' =>
      if ParticleType_eqb (type p) PHOTO
      then i :: photosFrom (S i) ps'
      else photosFrom (S i) ps'
  end.

Definition photosOf (ps : list ParticleData) : list nat := photosFrom 0 ps.

(** [photos.indexOf(p)]: the first position of [p], or [-1]. *)
Fixpoint indexOf (l : list nat) (p : nat) : Z :=
  match l with
  | [] => (-1)%Z
  | q :: l' => if Nat.eqb q p then 0%Z else
                 match indexOf l' p with
                 | Zneg _ => (-1)%Z
                 | k => (k + 1)%Z
                 end
  end.

(** [photos[state.activePhotoIndex % photos.length]]: with no photo the
    remainder is NaN and the lookup is [undefined]. *)
Definition activePhotoOf (state : State) (photos : list nat) : option nat :=
  match length photos with
  | O => None
  | S _ => nth_error photos (activePhotoIndex state mod length photos)
  end.

(** [p === activePhoto], for the particle at position [i]. *)
Definition isActivePhoto (activePhoto : option nat) (i : nat) : bool :=
  match activePhoto with
  | Some a => Nat.eqb a i
  | None => false
  end.

(** ** Experience.update *)

Section Update.
Context `{QuaternionOps}.

(** Lines 227-230: a DUST particle falls and wraps. *)
Definition fall (p : ParticleData) : ParticleData :=
  let pos := position (mesh p) in
  let y1 := Vector3.y pos - 0.05 in
  let y2 := if y1 <? -30 then 30 else y1 in
  with_mesh (with_position (Vector3.mk (Vector3.x pos) y2 (Vector3.z pos)) (mesh p)) p.

(** Lines 235-287: the branch on [state.mode] and [p.type], for the
    particle at position [i] of the array, with [t = i / PARTICLE_COUNT]. *)
Definition retarget (time : R) (state : State) (photos : list nat)
    (activePhoto : option nat) (i : nat) (p : ParticleData) : ParticleData :=
  let t := INR i / INR PARTICLE_COUNT in
  match mode state with
  | TREE =>
      match type p with
      | PARTICLE =>
          let maxRadius := 12 in
          let height := 25 in
          let radius := maxRadius * (1 - t) in
          let angle := t * 50 * PI + time * 0.2 in
          with_targetScale (Vector3.mk 1 1 1)
            (with_targetRotation (Euler.mk 0 angle 0)
               (with_targetPosition
                  (Vector3.mk (cos angle * radius) (t * height - 10) (sin angle * radius))
                  p))
      | PHOTO =>
          let idx := IZR (indexOf photos i) in
          let angle := (idx / INR (length photos)) * PI * 2 + time * 0.1 in
          let radius := 15 in
          with_targetScale (Vector3.mk 1 1 1)
            (with_targetRotation (Euler.mk 0 (- angle) 0)
               (with_targetPosition
                  (Vector3.mk (cos angle * radius) 5 (sin angle * radius))
                  p))
      | DUST => p
      end
  | SCATTER =>
      match type p with
      | PARTICLE =>
          let angle := t * PI * 2 + time * 0.1 in
          let r := 15 + sin (time + t * 10) * 5 in
          let p1 :=
            with_targetPosition
              (Vector3.mk (cos angle * r) (sin (time * 0.5 + t * 5) * 10) (sin angle * r))
              p in
          (* Self rotation in scatter mode *)
          let e := rotation (mesh p1) in
          let m1 :=
            with_rotation
              (Euler.mk (Euler.x e + Vector3.x (rotationSpeed p1)) (Euler.y e) (Euler.z e))
              (mesh p1) in
          let e1 := rotation m1 in
          let m2 :=
            with_rotation
              (Euler.mk (Euler.x e1) (Euler.y e1 + Vector3.y (rotationSpeed p1)) (Euler.z e1))
              m1 in
          with_targetScale (Vector3.mk 1 1 1) (with_mesh m2 p1)
      | PHOTO =>
          let idx := IZR (indexOf photos i) in
          let angle := (idx / INR (length photos)) * PI * 2 - time * 0.05 in
          with_targetScale (Vector3.mk 1 1 1)
            (with_targetRotation (Euler.mk 0 time 0)
               (with_targetPosition
                  (Vector3.mk (cos angle * 20) (sin idx * 10) (sin angle * 20))
                  p))
      | DUST => p
      end
  | FOCUS =>
      if isActivePhoto activePhoto i then
        with_targetScale (Vector3.mk 4.5 4.5 4.5)
          (with_targetRotation (Euler.mk 0 0 0)
             (with_targetPosition (Vector3.mk 0 2 35) p))
      else
        (* Background particles scatter *)
        let angle := t * PI * 2 in
        with_targetScale (Vector3.mk 0.5 0.5 0.5)
          (with_targetPosition
             (Vector3.mk (cos angle * 40) ((t - 0.5) * 60) (sin angle * 40))
             p)
  end.

(** Lines 289-294: the smooth transition. *)
Definition smooth (state : State) (p : ParticleData) : ParticleData :=
  let m1 := with_position (Vector3.lerp (position (mesh p)) (targetPosition p) 0.05) (mesh p) in
  let m2 := with_scale (Vector3.lerp (scale m1) (targetScale p) 0.05) m1 in
  let m3 :=
    if negb (AppMode_eqb (mode state) SCATTER) || ParticleType_eqb (type p) PHOTO
    then with_quaternion (slerp (quaternion m2) (setFromEuler (targetRotation p)) 0.05) m2
    else m2 in
  with_mesh m3 p.

(** The callback of [this.particles.forEach((p, i) => ...)]. *)
Definition animate (time : R) (state : State) (photos : list nat)
    (activePhoto : option nat) (i : nat) (p : ParticleData) : ParticleData :=
  match type p with
  | DUST => fall p
  | _ => smooth state (retarget time state photos activePhoto i p)
  end.

(** [update(state)], with [time] the value of [clock.getElapsedTime()]. *)
Definition update (time : R) (state : State) (e : Experience) : Experience :=
  let g := mainGroup_rotation e in
  let gy := MathUtils_lerp (Euler.y g) (handX state * PI) 0.1 in
  let gx := MathUtils_lerp (Euler.x g) (handY state * PI * 0.5) 0.1 in
  let photos := photosOf (particles e) in
  let activePhoto := activePhotoOf state photos in
  mkExperience (Euler.mk gx gy (Euler.z g))
    (mapi_from (animate time state photos activePhoto) 0 (particles e)).

(** One display frame, as the two [requestAnimationFrame] callbacks of
    [App.tsx] make it: [processFrame] on what the detector saw, then
    [animate] calling [update] with the clock's reading and the state
    [processFrame] left.  [None] when [processFrame] throws.  The effect
    that builds the [Experience] anew when the mode changes is not part of
    this step. *)
Definition frame (v : VideoFrame) (time : R) (s : State * Experience)
    : option (State * Experience) :=
  match processFrame v (fst s) with
  | Some st => Some (st, update time st (snd s))
  | None => None
  end.

(** [n] display frames in a row; frame [k] sees [fst (inputs k)] and reads
    the clock at [snd (inputs k)]. *)
Fixpoint frames (inputs : nat -> VideoFrame * R) (n : nat) (s : State * Experience)
    : option (State * Experience) :=
  match n with
  | O => Some s
  | S k =>
      match frames inputs k s with
      | Some s' => frame (fst (inputs k)) (snd (inputs k)) s'
      | None => None
      end
  end.

(** [n] calls of [update] in a row; call [k] reads the clock at
    [fst (calls k)] and is handed the state [snd (calls k)]. *)
Fixpoint run (calls : nat -> R * State) (n : nat) (e : Experience) : Experience :=
  match n with
  | O => e
  | S k => update (fst (calls k)) (snd (calls k)) (run calls k e)
  end.

End Update.

(** The particle pushed by [createParticles], with the two random vectors
    it draws. *)
Definition newOrnament (v s : Vector3.t) : ParticleData :=
  {| mesh := mkMesh (Vector3.mk 0 0 0) (Euler.mk 0 0 0) (Quaternion.mk 0 0 0 1)
                    (Vector3.mk 1 1 1);
     type := PARTICLE;
     targetPosition := Vector3.mk 0 0 0;
     targetRotation := Euler.mk 0 0 0;
     targetScale := Vector3.mk 1 1 1;
     velocity := v;
     rotationSpeed := s |}.

(** The particle pushed by [addPhoto]. *)
Definition newPhoto : ParticleData :=
  {| mesh := mkMesh (Vector3.mk 0 0 0) (Euler.mk 0 0 0) (Quaternion.mk 0 0 0 1)
                    (Vector3.mk 1 1 1);
     type := PHOTO;
     targetPosition := Vector3.mk 0 0 0;
     targetRotation := Euler.mk 0 0 0;
     targetScale := Vector3.mk 1 1 1;
     velocity := Vector3.mk 0 0 0;
     rotationSpeed := Vector3.mk 0 0 0 |}.

(** The particle pushed by [createDust] at the random position [pos]. *)
Definition newDust (pos : Vector3.t) : ParticleData :=
  {| mesh := mkMesh pos (Euler.mk 0 0 0) (Quaternion.mk 0 0 0 1) (Vector3.mk 1 1 1);
     type := DUST;
     targetPosition := pos;
     targetRotation := Euler.mk 0 0 0;
     targetScale := Vector3.mk 1 1 1;
     velocity := Vector3.mk 0 (-0.01) 0;
     rotationSpeed := Vector3.mk 0 0 0 |}.

(** An instance of the three.js interface for running examples: the
    interpolation is taken component by component and the two conversions
    copy the vector part.  It serves the examples only; every claim is
    proved for an arbitrary instance. *)
Definition exampleOps : QuaternionOps :=
  {| slerp := fun q r a =>
       Quaternion.mk (Quaternion.x q + (Quaternion.x r - Quaternion.x q) * a)
                     (Quaternion.y q + (Quaternion.y r - Quaternion.y q) * a)
                     (Quaternion.z q + (Quaternion.z r - Quaternion.z q) * a)
                     (Quaternion.w q + (Quaternion.w r - Quaternion.w q) * a);
     setFromEuler := fun e => Quaternion.mk (Euler.x e) (Euler.y e) (Euler.z e) 1;
     setFromQuaternion := fun q => Euler.mk (Quaternion.x q) (Quaternion.y q) (Quaternion.z q) |}.

(** A distance between quaternions, the sum of the gaps of the four
    components. *)
Definition taxicab (q r : Quaternion.t) : R :=
  Rabs (Quaternion.x q - Quaternion.x r) + Rabs (Quaternion.y q - Quaternion.y r)
  + Rabs (Quaternion.z q - Quaternion.z r) + Rabs (Quaternion.w q - Quaternion.w r).

(** ** The measurements of a hand as the specification words them *)

Module HandSpec.

(** Landmark [k] of a hand. *)
Definition landmark (h : Hand) (k : nat) : NormalizedLandmark.t :=
  nth k h (NormalizedLandmark.mk 0 0 0).

(** Euclidean distance between two landmarks. *)
Definition distance (a b : NormalizedLandmark.t) : R :=
  sqrt ((NormalizedLandmark.x a - NormalizedLandmark.x b) ^ 2
        + (NormalizedLandmark.y a - NormalizedLandmark.y b) ^ 2
        + (NormalizedLandmark.z a - NormalizedLandmark.z b) ^ 2).

(** Step 1: distance between thumb tip (4) and index tip (8). *)
Definition pinchDistance (h : Hand) : R :=
  distance (landmark h 4) (landmark h 8).

(** Step 2: mean distance from the wrist (0) to the tips 8, 12, 16, 20. *)
Definition avgFingerSpread (h : Hand) : R :=
  (distance (landmark h 0) (landmark h 8) + distance (landmark h 0) (landmark h 12)
   + distance (landmark h 0) (landmark h 16) + distance (landmark h 0) (landmark h 20)) / 4.

(** Step 4: the pointing signal, from landmark 9. *)
Definition pointX (h : Hand) : R := (NormalizedLandmark.x (landmark h 9) - 0.5) * 2.
Definition pointY (h : Hand) : R := (NormalizedLandmark.y (landmark h 9) - 0.5) * 2.

(** The ModeState after a frame with hand [h]: classify, apply the
    transition rule, write the pointing signal. *)
Definition step (h : Hand) (prev : State) : State :=
  let g := Spec.classify (pinchDistance h) (avgFingerSpread h) in
  let mk := Spec.transition g (mode prev) (activePhotoIndex prev) in
  {| mode := fst mk; handX := pointX h; handY := pointY h;
     isPinching := isPinching prev; isFist := isFist prev;
     isOpen := isOpen prev; activePhotoIndex := snd mk;
     loading := loading prev; uiHidden := uiHidden prev |}.

End HandSpec.

(** A hand for examples: every landmark at the origin except the four
    finger tips 8, 12, 16, 20, each at distance [d] along the x axis, and
    the thumb tip 4 at distance [d + pinch] along it; landmark 9 is at
    [(cx, cy, 0)]. *)
Definition exampleHand (d pinch cx cy : R) : Hand :=
  let o := NormalizedLandmark.mk 0 0 0 in
  let tip := NormalizedLandmark.mk d 0 0 in
  [o; o; o; o; NormalizedLandmark.mk (d + pinch) 0 0; o; o; o; tip;
   NormalizedLandmark.mk cx cy 0; o; o; tip; o; o; o; tip; o; o; o; tip].

(** ** Example scenes *)

(** A state in mode [m] with active photo index [k], the hand centred. *)
Definition stateIn (m : AppMode) (k : nat) : State :=
  {| mode := m; handX := 0; handY := 0;
     isPinching := false; isFist := false; isOpen := false;
     activePhotoIndex := k; loading := false; uiHidden := false |}.

(** A scene holding the particles [ps], [mainGroup] not yet rotated. *)
Definition scene (ps : list ParticleData) : Experience :=
  mkExperience (Euler.mk 0 0 0) ps.

(** An ornament as created, spinning about the z axis only. *)
Definition zSpinner : ParticleData :=
  newOrnament (Vector3.mk 0 0 0) (Vector3.mk 0 0 1).

(** A clock that always reads 0, with the same state at every call. *)
Definition still (st : State) : nat -> R * State := fun _ => (0, st).

(** Frames in which the video is never ready, the clock reading 0. *)
Definition noVideo : nat -> VideoFrame * R := fun _ => (NotReady, 0).

(** The scene an ornament and a photo are in after one TREE tick at clock
    reading 5: the tick has written the yaw [0 / 1500 * 50 * PI + 5 * 0.2]
    into the ornament's target rotation. *)
Definition afterTreeTick : Experience :=
  update (H := exampleOps) 5 (stateIn TREE 0) (scene [zSpinner; newPhoto]).

(** ** App.tsx: the other state updates *)

Module Keys.
Import String Ascii.

(** Lower case of one ASCII character; other characters are kept. *)
Definition lowerAscii (c : ascii) : ascii :=
  let n := nat_of_ascii c in
  if (65 <=? n)%nat && (n <=? 90)%nat then ascii_of_nat (n + 32) else c.

(** [key.toLowerCase()], on the ASCII names keyboard events carry. *)
Fixpoint toLowerCase (key : string) : string :=
  match key with
  | EmptyString => EmptyString
  | String c rest => String (lowerAscii c) (toLowerCase rest)
  end.

(** The key names "h" and "H". *)
Definition lowerH : string := "h".
Definition upperH : string := "H".

(** [e.key.toLowerCase() === 'h'] (line 105). *)
Definition isH (key : string) : bool := String.eqb (toLowerCase key) lowerH.

End Keys.

(** [handleKey] (lines 104-108): the state after a key press. *)
Definition handleKey (key : String.string) (prev : State) : State :=
  if Keys.isH key then
    {| mode := mode prev; handX := handX prev; handY := handY prev;
       isPinching := isPinching prev; isFist := isFist prev; isOpen := isOpen prev;
       activePhotoIndex := activePhotoIndex prev;
       loading := loading prev; uiHidden := negb (uiHidden prev) |}
  else prev.

(** [setState(prev => ({ ...prev, loading: false }))] (lines 42 and 97). *)
Definition loaded (prev : State) : State :=
  {| mode := mode prev; handX := handX prev; handY := handY prev;
     isPinching := isPinching prev; isFist := isFist prev; isOpen := isOpen prev;
     activePhotoIndex := activePhotoIndex prev;
     loading := false; uiHidden := uiHidden prev |}.

(** What makes [App] call [setState]: the landmarker is ready (or the
    camera failed), a video frame is processed, a key goes down. *)
Inductive Action : Type :=
| LoadingDone
| FrameSeen (v : VideoFrame)
| KeyDown (key : String.string).

(** The state after an action.  A run of [processFrame] that throws has
    not called [setState]: the state stays. *)
Definition dispatch (a : Action) (prev : State) : State :=
  match a with
  | LoadingDone => loaded prev
  | FrameSeen v =>
      match processFrame v prev with
      | Some next => next
      | None => prev
      end
  | KeyDown key => handleKey key prev
  end.

(** The state after the actions of [trace], in order, from [s]. *)
Definition dispatchAll (trace : list Action) (s : State) : State :=
  fold_left (fun st a => dispatch a st) trace s.

(** The number of actions of a trace that take the mode from TREE or
    SCATTER into FOCUS, starting in state [s]. *)
Fixpoint focusEntries (trace : list Action) (s : State) : nat :=
  match trace with
  | [] => 0%nat
  | a :: rest =>
      let s' := dispatch a s in
      ((if negb (AppMode_eqb (mode s) FOCUS) && AppMode_eqb (mode s') FOCUS
        then 1 else 0) + focusEntries rest s')%nat
  end.

(** The actions that end loading, and the presses of the H key. *)
Definition isLoadingDone (a : Action) : bool :=
  match a with LoadingDone => true | _ => false end.

Definition isHPress (a : Action) : bool :=
  match a with KeyDown key => Keys.isH key | _ => false end.

(** Landmark 9 of the first hand of the frame, when there is one, has its
    x and y within [[0, 1]], the range of normalized image coordinates. *)
Definition centreInView (v : VideoFrame) : Prop :=
  match v with
  | Detected (h :: _) =>
      match nth_error h 9 with
      | Some c => 0 <= NormalizedLandmark.x c <= 1 /\ 0 <= NormalizedLandmark.y c <= 1
      | None => True
      end
  | _ => True
  end.

(** A hand moved as a whole by [(dx, dy, dz)]. *)
Definition translate (dx dy dz : R) (h : Hand) : Hand :=
  map (fun l => NormalizedLandmark.mk (NormalizedLandmark.x l + dx)
                                      (NormalizedLandmark.y l + dy)
                                      (NormalizedLandmark.z l + dz)) h.

(** ** Experience: construction *)

(** [v.multiplyScalar(s)]. *)
Definition multiplyScalar (v : Vector3.t) (s : R) : Vector3.t :=
  Vector3.mk (Vector3.x v * s) (Vector3.y v * s) (Vector3.z v * s).

(** The geometries and materials [createParticles] chooses among. *)
Inductive Geometry : Set := boxGeo | sphereGeo | candyCaneGeometry.
Inductive Material : Set := goldMat | greenMat | redMat | caneMat.

(** Lines 90-97: geometry and material of the particle of loop index [i]. *)
Definition geometryOf (i : nat) : Geometry :=
  let geo := if (i mod 2 =? 0)%nat then boxGeo else sphereGeo in
  if (i mod 20 =? 0)%nat then candyCaneGeometry else geo.

Definition materialOf (i : nat) : Material :=
  let mat := if (i mod 3 =? 0)%nat then goldMat
             else if (i mod 3 =? 1)%nat then greenMat else redMat in
  if (i mod 20 =? 0)%nat then caneMat else mat.

(** [Math.random()]: [random k] is the value of call number [k], counted
    from the first call of the constructor. *)
Definition Draws : Type := nat -> R.

(** Lines 102-110: the particle one turn of the loop of [createParticles]
    pushes when [k] draws have been made, and the draws made after it.
    Geometry and material, which [update] never reads, are [geometryOf] and
    [materialOf] of the loop index. *)
Definition createParticle (random : Draws) (k : nat) : ParticleData * nat :=
  let v := multiplyScalar
             (Vector3.mk (random k - 0.5) (random (k + 1)%nat - 0.5)
                         (random (k + 2)%nat - 0.5)) 2 in
  let s := multiplyScalar
             (Vector3.mk (random (k + 3)%nat) (random (k + 4)%nat)
                         (random (k + 5)%nat)) 0.05 in
  (newOrnament v s, (k + 6)%nat).

(** Lines 153-169: the particle one turn of the loop of [createDust]
    pushes. *)
Definition createDustMote (random : Draws) (k : nat) : ParticleData * nat :=
  let pos := Vector3.mk ((random k - 0.5) * 60) ((random (k + 1)%nat - 0.5) * 60)
                        ((random (k + 2)%nat - 0.5) * 60) in
  (newDust pos, (k + 3)%nat).

(** [for (let i = 0; i < count; i++) this.particles.push(body())]. *)
Fixpoint pushLoop (body : nat -> ParticleData * nat) (count k : nat)
    (ps : list ParticleData) : list ParticleData * nat :=
  match count with
  | O => (ps, k)
  | S c => let '(p, k') := body k in pushLoop body c k' (ps ++ [p])
  end.

Definition createParticles (random : Draws) (k : nat) (ps : list ParticleData)
    : list ParticleData * nat :=
  pushLoop (createParticle random) PARTICLE_COUNT k ps.

Definition createDust (random : Draws) (k : nat) (ps : list ParticleData)
    : list ParticleData * nat :=
  pushLoop (createDustMote random) DUST_COUNT k ps.

(** [addPhoto(texture)] (lines 190-214): one PHOTO particle is pushed. *)
Definition addPhoto (e : Experience) : Experience :=
  mkExperience (mainGroup_rotation e) (particles e ++ [newPhoto]).

(** The constructor (lines 68-74): [createParticles()], then
    [createPhotoWall()], which calls [addPhoto], then [createDust()]. *)
Definition construct (random : Draws) : Experience :=
  let '(ps1, k1) := createParticles random 0 [] in
  let e2 := addPhoto (mkExperience (Euler.mk 0 0 0) ps1) in
  let '(ps3, _) := createDust random k1 (particles e2) in
  mkExperience (mainGroup_rotation e2) ps3.

(** What the host does to an [Experience] after it is built: the
    animation loop calls [update], a loaded file calls [addPhoto]. *)
Inductive Call : Type :=
| Update (time : R) (state : State)
| AddPhoto.

Section Session.
Context `{QuaternionOps}.

Definition call (c : Call) (e : Experience) : Experience :=
  match c with
  | Update time state => update time state e
  | AddPhoto => addPhoto e
  end.

(** The calls of [cs], in order. *)
Definition session (cs : list Call) (e : Experience) : Experience :=
  fold_left (fun e' c => call c e') cs e.

End Session.

(** The hand signal handed to [update] is within [[-1, 1]]. *)
Definition handInRange (c : Call) : Prop :=
  match c with
  | Update _ state => -1 <= handX state <= 1 /\ -1 <= handY state <= 1
  | AddPhoto => True
  end.

(** The calls of [addPhoto] among [cs]. *)
Definition isAddPhoto (c : Call) : bool :=
  match c with AddPhoto => true | Update _ _ => false end.

(** Every component of [v] lies between [lo] and [hi]. *)
Definition within (lo hi : R) (v : Vector3.t) : Prop :=
  lo <= Vector3.x v <= hi /\ lo <= Vector3.y v <= hi /\ lo <= Vector3.z v <= hi.

(** An ornament as created, spinning about all three axes. *)
Definition spinner : ParticleData :=
  newOrnament (Vector3.mk 0 0 0) (Vector3.mk 0.01 0.02 0.03).

(** A dust mote at the top of its band. *)
Definition topDust : ParticleData := newDust (Vector3.mk 1 30 2).

(** Draws that are all one half. *)
Definition halves : Draws := fun _ => 0.5.

(** ** The smoother on doubles *)

(** Lines 290-291 once more, with the numbers three.js computes with:
    IEEE binary64, every operation rounded to nearest.  [Vector3.lerp] is
    [this.x += (v.x - this.x) * alpha] for each component. *)
Module Doubles.
Import Floats.
#[local] Set Warnings "-inexact-float".
#[local] Open Scope float_scope.

Module Vector3.
Record t : Set := mk { x : float; y : float; z : float }.

Definition lerp (v w : t) (alpha : float) : t :=
  mk (x v + (x w - x v) * alpha)
     (y v + (y w - y v) * alpha)
     (z v + (z w - z v) * alpha).

(** [v.distanceTo(w)]: [Math.sqrt(dx * dx + dy * dy + dz * dz)]. *)
Definition distanceTo (v w : t) : float :=
  let dx := x v - x w in
  let dy := y v - y w in
  let dz := z v - z w in
  PrimFloat.sqrt (dx * dx + dy * dy + dz * dz).
End Vector3.

(** The fields of a particle that the two [lerp] calls read and write. *)
Record Particle : Set := mkParticle {
  position : Vector3.t;
  scale : Vector3.t;
  targetPosition : Vector3.t;
  targetScale : Vector3.t
}.

(** [p.mesh.position.lerp(p.targetPosition, 0.05)], then
    [p.mesh.scale.lerp(p.targetScale, 0.05)]. *)
Definition smooth (p : Particle) : Particle :=
  mkParticle (Vector3.lerp (position p) (targetPosition p) 0.05)
             (Vector3.lerp (scale p) (targetScale p) 0.05)
             (targetPosition p) (targetScale p).




(** One component after a [lerp] at 0.05 toward [target]. *)
Definition step (target a : float) : float := a + (target - a) * 0.05.


End Doubles.



(** * Properties *)

(** [INR PARTICLE_COUNT] is kept folded during simplification. *)
#[local] Arguments INR : simpl never.

Lemma INR_PARTICLE_COUNT : INR PARTICLE_COUNT = 1500.
Proof.
  unfold PARTICLE_COUNT. rewrite INR_IZR_INZ. reflexivity.
Qed.

(** ** Comparisons *)

Lemma ltb_lt (a b : R) : (a <? b) = true <-> a < b.
Proof.
  unfold ltb. destruct (Rlt_dec a b); split; intros; try easy.
Qed.

Lemma ltb_nlt (a b : R) : (a <? b) = false <-> ~ a < b.
Proof.
  unfold ltb. destruct (Rlt_dec a b); split; intros; try easy.
Qed.

Lemma gtb_gt (a b : R) : (a >? b) = true <-> a > b.
Proof. unfold gtb. apply ltb_lt. Qed.

Lemma gtb_ngt (a b : R) : (a >? b) = false <-> ~ a > b.
Proof. unfold gtb. apply ltb_nlt. Qed.

(** Case analysis on a comparison, recording the order fact. *)
Ltac cmp a b :=
  let H := fresh "Hcmp" in
  destruct (ltb a b) eqn:H;
  [ apply ltb_lt in H | apply ltb_nlt in H ].

(** ** processFrame refines the classifier of the specification *)

Lemma landmarkDist_distance (a b : NormalizedLandmark.t) :
  landmarkDist a b = HandSpec.distance a b.
Proof.
  unfold landmarkDist, hypot, HandSpec.distance. f_equal. ring.
Qed.

Lemma distance_sym (a b : NormalizedLandmark.t) :
  HandSpec.distance a b = HandSpec.distance b a.
Proof.
  unfold HandSpec.distance. f_equal. ring.
Qed.

(** A hand of 21 landmarks is measured, and the measurements are the
    specification's. *)
Lemma measure_spec (h : Hand) :
  length h = 21%nat ->
  measure h = Some (HandSpec.pointX h, HandSpec.pointY h,
                    HandSpec.pinchDistance h, HandSpec.avgFingerSpread h).
Proof.
  intros Hlen.
  do 22 (destruct h as [|? h]; try discriminate Hlen).
  unfold measure, HandSpec.pointX, HandSpec.pointY, HandSpec.pinchDistance,
    HandSpec.avgFingerSpread, HandSpec.landmark, avgDistOf.
  cbn [nth_error nth fold_left].
  rewrite !landmarkDist_distance.
  rewrite (distance_sym t7 t), (distance_sym t11 t), (distance_sym t15 t),
    (distance_sym t19 t).
  do 4 f_equal. lra.
Qed.

Lemma updater_step (h : Hand) (prev : State) :
  updater (HandSpec.pointX h) (HandSpec.pointY h)
          (HandSpec.pinchDistance h) (HandSpec.avgFingerSpread h) prev
  = HandSpec.step h prev.
Proof.
  unfold updater, HandSpec.step, Spec.classify, Spec.transition,
    GESTURE_THRESHOLDS.PINCH, GESTURE_THRESHOLDS.FIST, GESTURE_THRESHOLDS.OPEN.
  destruct (HandSpec.pinchDistance h <? 0.05).
  - destruct (mode prev); cbn; try reflexivity; now rewrite Nat.add_1_r.
  - destruct (HandSpec.avgFingerSpread h <? 0.25); [reflexivity|].
    destruct (HandSpec.avgFingerSpread h >? 0.4); reflexivity.
Qed.

(** On a frame that shows a hand of 21 landmarks, [processFrame] returns,
    and what it returns is the specification's step. *)
Lemma processFrame_refines (h : Hand) (rest : list Hand) (prev : State) :
  length h = 21%nat ->
  processFrame (Detected (h :: rest)) prev = Some (HandSpec.step h prev).
Proof.
  intros Hlen. unfold processFrame.
  rewrite (measure_spec h Hlen). now rewrite updater_step.
Qed.

(** Without a hand [processFrame] returns the state it was given. *)
Lemma processFrame_no_hand (prev : State) :
  processFrame NotReady prev = Some prev /\ processFrame (Detected []) prev = Some prev.
Proof. split; reflexivity. Qed.

Lemma exampleHand_length (d pinch cx cy : R) : length (exampleHand d pinch cx cy) = 21%nat.
Proof. reflexivity. Qed.

Lemma sqrt_sq_nonneg (a : R) : 0 <= a -> sqrt (a ^ 2 + 0 ^ 2 + 0 ^ 2) = a.
Proof.
  intros Ha. replace (a ^ 2 + 0 ^ 2 + 0 ^ 2) with (a * a) by ring.
  now apply sqrt_square.
Qed.

Lemma exampleHand_pinch (d pinch cx cy : R) :
  0 <= pinch -> HandSpec.pinchDistance (exampleHand d pinch cx cy) = pinch.
Proof.
  intros Hp. unfold HandSpec.pinchDistance, HandSpec.distance, HandSpec.landmark.
  cbn [exampleHand nth NormalizedLandmark.x NormalizedLandmark.y NormalizedLandmark.z].
  replace (d + pinch - d) with pinch by ring.
  replace (0 - 0) with 0 by ring. now apply sqrt_sq_nonneg.
Qed.

Lemma exampleHand_spread (d pinch cx cy : R) :
  0 <= d -> HandSpec.avgFingerSpread (exampleHand d pinch cx cy) = d.
Proof.
  intros Hd. unfold HandSpec.avgFingerSpread, HandSpec.distance, HandSpec.landmark.
  cbn [exampleHand nth NormalizedLandmark.x NormalizedLandmark.y NormalizedLandmark.z].
  replace (0 - 0) with 0 by ring.
  replace ((0 - d) ^ 2) with (d ^ 2) by ring.
  rewrite (sqrt_sq_nonneg d Hd). lra.
Qed.

(** ** Claims on the gesture classifier and the mode state *)

(** C2.  On every frame that shows a hand, the decision is taken in the
    order pinch, fist, open, and the first test that holds decides the
    mode: a pinch distance below 0.05 gives FOCUS whatever the spread; only
    when it is not below does a spread below 0.25 give TREE; only when
    neither holds does a spread above 0.4 give SCATTER; otherwise the mode
    stays.  In particular a frame with pinch distance below 0.05 and spread
    above 0.4 ends in FOCUS, not SCATTER. *)
Theorem gesture_priority (h : Hand) (rest : list Hand) (prev : State) :
  length h = 21%nat ->
  exists next,
    processFrame (Detected (h :: rest)) prev = Some next /\
    let pinch := HandSpec.pinchDistance h in
    let spread := HandSpec.avgFingerSpread h in
    (pinch < GESTURE_THRESHOLDS.PINCH -> mode next = FOCUS) /\
    (~ pinch < GESTURE_THRESHOLDS.PINCH -> spread < GESTURE_THRESHOLDS.FIST ->
       mode next = TREE) /\
    (~ pinch < GESTURE_THRESHOLDS.PINCH -> ~ spread < GESTURE_THRESHOLDS.FIST ->
       spread > GESTURE_THRESHOLDS.OPEN -> mode next = SCATTER) /\
    (~ pinch < GESTURE_THRESHOLDS.PINCH -> ~ spread < GESTURE_THRESHOLDS.FIST ->
       ~ spread > GESTURE_THRESHOLDS.OPEN -> mode next = mode prev) /\
    (pinch < 0.05 -> spread > 0.4 -> mode next = FOCUS /\ mode next <> SCATTER).
Proof.
  intros Hlen. exists (HandSpec.step h prev).
  split; [now apply processFrame_refines|].
  unfold HandSpec.step, Spec.classify, GESTURE_THRESHOLDS.PINCH,
    GESTURE_THRESHOLDS.FIST, GESTURE_THRESHOLDS.OPEN.
  cbv zeta. cbn [mode].
  cmp (HandSpec.pinchDistance h) 0.05.
  - assert (Hf : fst (Spec.transition Spec.PINCH (mode prev) (activePhotoIndex prev)) = FOCUS)
      by (destruct (mode prev); reflexivity).
    rewrite Hf. repeat split; intros; try reflexivity; try contradiction; discriminate.
  - cmp (HandSpec.avgFingerSpread h) 0.25.
    + repeat split; intros; try reflexivity; contradiction.
    + destruct (HandSpec.avgFingerSpread h >? 0.4) eqn:Hopen;
        [apply gtb_gt in Hopen | apply gtb_ngt in Hopen];
        repeat split; intros; try reflexivity; contradiction.
Qed.

Lemma gesture_priority_witness :
  exists next,
    processFrame (Detected [exampleHand 1 0 0.5 0.5]) initialState = Some next /\
    mode next = FOCUS.
Proof.
  destruct (gesture_priority (exampleHand 1 0 0.5 0.5) [] initialState
              (exampleHand_length 1 0 0.5 0.5))
    as (next & Hrun & _ & _ & _ & _ & Hboth).
  exists next. split; [exact Hrun|].
  apply Hboth.
  - rewrite exampleHand_pinch; lra.
  - rewrite exampleHand_spread; lra.
Defined.

(** C3.  [activePhotoIndex] changes only on an edge from TREE or SCATTER
    into FOCUS.  On any frame, a changed index means the mode was not FOCUS
    before, is FOCUS after, and the index grew by exactly one.  On a frame
    with a hand: a pinch while already in FOCUS leaves mode and index as
    they were; a pinch in TREE or SCATTER enters FOCUS and adds one to the
    index; without a pinch (fist, open or no gesture) the index is kept. *)
Theorem activePhotoIndex_edge (prev : State) :
  (forall (v : VideoFrame) (next : State),
      processFrame v prev = Some next ->
      activePhotoIndex next <> activePhotoIndex prev ->
      mode prev <> FOCUS /\ mode next = FOCUS /\
      activePhotoIndex next = S (activePhotoIndex prev)) /\
  (forall (h : Hand) (rest : list Hand),
      length h = 21%nat ->
      exists next,
        processFrame (Detected (h :: rest)) prev = Some next /\
        let pinch := HandSpec.pinchDistance h in
        (pinch < GESTURE_THRESHOLDS.PINCH -> mode prev = FOCUS ->
           mode next = FOCUS /\ activePhotoIndex next = activePhotoIndex prev) /\
        (pinch < GESTURE_THRESHOLDS.PINCH -> mode prev <> FOCUS ->
           mode next = FOCUS /\ activePhotoIndex next = (activePhotoIndex prev + 1)%nat) /\
        (~ pinch < GESTURE_THRESHOLDS.PINCH ->
           activePhotoIndex next = activePhotoIndex prev)).
Proof.
  split.
  - intros v next Hrun Hchange.
    destruct v as [|[|h rest]]; cbn in Hrun.
    + injection Hrun as <-. contradiction.
    + injection Hrun as <-. contradiction.
    + destruct (measure h) as [[[[hX hY] pinchDist] avgDist]|]; [|discriminate].
      injection Hrun as <-. revert Hchange. unfold updater.
      destruct (pinchDist <? GESTURE_THRESHOLDS.PINCH).
      * destruct (mode prev); cbn; intros Hchange;
          try contradiction; repeat split; try discriminate; lia.
      * destruct (avgDist <? GESTURE_THRESHOLDS.FIST);
          [|destruct (avgDist >? GESTURE_THRESHOLDS.OPEN)];
          cbn; intros Hchange; contradiction.
  - intros h rest Hlen. exists (HandSpec.step h prev).
    split; [now apply processFrame_refines|].
    unfold HandSpec.step, Spec.classify, GESTURE_THRESHOLDS.PINCH.
    cbv zeta. cbn [mode activePhotoIndex].
    cmp (HandSpec.pinchDistance h) 0.05.
    + repeat split; intros; try contradiction;
        destruct (mode prev); cbn; try reflexivity; try discriminate;
        try congruence; lia.
    + repeat split; intros; try contradiction.
      destruct (HandSpec.avgFingerSpread h <? 0.25);
        [|destruct (HandSpec.avgFingerSpread h >? 0.4)]; reflexivity.
Qed.

Lemma activePhotoIndex_edge_witness :
  exists next,
    processFrame (Detected [exampleHand 0.3 0.02 0.5 0.5]) initialState = Some next /\
    mode next = FOCUS /\ activePhotoIndex next = 1%nat.
Proof.
  destruct (proj2 (activePhotoIndex_edge initialState)
              (exampleHand 0.3 0.02 0.5 0.5) [] (exampleHand_length _ _ _ _))
    as (next & Hrun & _ & Henter & _).
  exists next. split; [exact Hrun|].
  apply Henter.
  - rewrite exampleHand_pinch; unfold GESTURE_THRESHOLDS.PINCH; lra.
  - discriminate.
Defined.

(** C8.  A frame without a hand leaves the whole state as it was.  A frame
    with a hand writes [handX = (center.x - 0.5) * 2] and
    [handY = (center.y - 0.5) * 2] from landmark 9 whatever the gesture:
    also when no test of the decision holds, where every other field,
    mode and index included, is kept. *)
Theorem pointing_unconditional (prev : State) :
  processFrame NotReady prev = Some prev /\
  processFrame (Detected []) prev = Some prev /\
  (forall (h : Hand) (rest : list Hand) (center : NormalizedLandmark.t),
      length h = 21%nat ->
      nth_error h 9 = Some center ->
      exists next,
        processFrame (Detected (h :: rest)) prev = Some next /\
        handX next = (NormalizedLandmark.x center - 0.5) * 2 /\
        handY next = (NormalizedLandmark.y center - 0.5) * 2 /\
        (Spec.classify (HandSpec.pinchDistance h) (HandSpec.avgFingerSpread h) = Spec.NONE ->
           next = {| mode := mode prev;
                     handX := (NormalizedLandmark.x center - 0.5) * 2;
                     handY := (NormalizedLandmark.y center - 0.5) * 2;
                     isPinching := isPinching prev; isFist := isFist prev;
                     isOpen := isOpen prev;
                     activePhotoIndex := activePhotoIndex prev;
                     loading := loading prev; uiHidden := uiHidden prev |})).
Proof.
  split; [reflexivity|]. split; [reflexivity|].
  intros h rest center Hlen Hc. exists (HandSpec.step h prev).
  split; [now apply processFrame_refines|].
  assert (Hl : HandSpec.landmark h 9 = center).
  { unfold HandSpec.landmark. now apply nth_error_nth. }
  unfold HandSpec.step, HandSpec.pointX, HandSpec.pointY. rewrite Hl.
  cbn [handX handY]. repeat split.
  intros ->. reflexivity.
Qed.

Lemma pointing_unconditional_witness :
  exists next,
    processFrame (Detected [exampleHand 0.3 0.2 0.75 0.25]) initialState = Some next /\
    handX next = (0.75 - 0.5) * 2 /\ handY next = (0.25 - 0.5) * 2.
Proof.
  destruct (proj2 (proj2 (pointing_unconditional initialState))
              (exampleHand 0.3 0.2 0.75 0.25) [] (NormalizedLandmark.mk 0.75 0.25 0)
              (exampleHand_length _ _ _ _) eq_refl)
    as (next & Hrun & HX & HY & _).
  exists next. repeat split; assumption.
Defined.

(** ** The particle pass of [update] *)

Lemma nth_error_mapi_from {A B : Type} (f : nat -> A -> B) (l : list A) (k i : nat) :
  nth_error (mapi_from f k l) i = option_map (f (k + i)%nat) (nth_error l i).
Proof.
  revert k i. induction l as [|a l IH]; intros k i.
  - now destruct i.
  - destruct i as [|i]; cbn.
    + now rewrite Nat.add_0_r.
    + rewrite IH. now rewrite Nat.add_succ_r.
Qed.

Lemma length_mapi_from {A B : Type} (f : nat -> A -> B) (l : list A) (k : nat) :
  length (mapi_from f k l) = length l.
Proof.
  revert k. induction l as [|a l IH]; intros k; cbn; [reflexivity|now rewrite IH].
Qed.

(** Every member of [photosFrom k ps] is the position, counted from [k],
    of a PHOTO particle of [ps]. *)
Lemma photosFrom_In (ps : list ParticleData) (k j : nat) :
  In j (photosFrom k ps) <->
  (k <= j)%nat /\ exists q, nth_error ps (j - k) = Some q /\ type q = PHOTO.
Proof.
  revert k. induction ps as [|p ps IH]; intros k; cbn.
  - split; [easy|]. intros (_ & q & Hq & _). now destruct (j - k)%nat.
  - assert (Htail : In j (photosFrom (S k) ps) <->
              (k < j)%nat /\ exists q, nth_error ps (j - S k) = Some q /\ type q = PHOTO)
      by (rewrite IH; reflexivity).
    destruct (ParticleType_eqb (type p) PHOTO) eqn:Hp.
    + cbn. rewrite Htail. split.
      * intros [<-|(Hlt & q & Hq & Ht)].
        -- split; [lia|]. exists p. rewrite Nat.sub_diag. split; [reflexivity|].
           now destruct (type p).
        -- split; [lia|]. exists q. replace (j - k)%nat with (S (j - S k)) by lia.
           now split.
      * intros (Hle & q & Hq & Ht).
        destruct (Nat.eq_dec k j) as [->|Hne]; [now left|right].
        split; [lia|]. exists q. replace (j - k)%nat with (S (j - S k)) in Hq by lia.
        now split.
    + rewrite Htail. split.
      * intros (Hlt & q & Hq & Ht). split; [lia|]. exists q.
        replace (j - k)%nat with (S (j - S k)) by lia. now split.
      * intros (Hle & q & Hq & Ht).
        destruct (Nat.eq_dec k j) as [->|Hne].
        -- rewrite Nat.sub_diag in Hq. injection Hq as ->. rewrite Ht in Hp. discriminate.
        -- split; [lia|]. exists q.
           replace (j - k)%nat with (S (j - S k)) in Hq by lia. now split.
Qed.

(** [photosOf] lists exactly the positions of the PHOTO particles. *)
Lemma photosOf_In (ps : list ParticleData) (j : nat) :
  In j (photosOf ps) <-> exists q, nth_error ps j = Some q /\ type q = PHOTO.
Proof.
  unfold photosOf. rewrite photosFrom_In, Nat.sub_0_r. split.
  - now intros (_ & Hq).
  - intros Hq. split; [lia|exact Hq].
Qed.

(** With at least one photo the active one exists and is a PHOTO particle. *)
Lemma activePhotoOf_photo (state : State) (ps : list ParticleData) :
  photosOf ps <> [] ->
  exists a q, activePhotoOf state (photosOf ps) = Some a /\
              nth_error ps a = Some q /\ type q = PHOTO.
Proof.
  intros Hne. unfold activePhotoOf.
  destruct (photosOf ps) as [|j l] eqn:Hl; [contradiction|].
  cbn [length].
  destruct (nth_error (j :: l) (activePhotoIndex state mod S (length l))) as [a|] eqn:Ha.
  - exists a. apply nth_error_In in Ha. rewrite <- Hl in Ha.
    apply photosOf_In in Ha. destruct Ha as (q & Hq & Ht). now exists q.
  - apply nth_error_None in Ha. cbn [length] in Ha.
    pose proof (Nat.mod_upper_bound (activePhotoIndex state) (S (length l))). lia.
Qed.

Section UpdateFacts.
Context `{QuaternionOps}.

(** What [update] leaves at position [i] of the particle array. *)
Lemma update_nth (time : R) (state : State) (e : Experience) (i : nat) (p : ParticleData) :
  nth_error (particles e) i = Some p ->
  nth_error (particles (update time state e)) i
  = Some (animate time state (photosOf (particles e))
            (activePhotoOf state (photosOf (particles e))) i p).
Proof.
  intros Hp. unfold update. cbn [particles].
  rewrite nth_error_mapi_from, Hp. reflexivity.
Qed.

Lemma update_length (time : R) (state : State) (e : Experience) :
  length (particles (update time state e)) = length (particles e).
Proof. unfold update. cbn [particles]. apply length_mapi_from. Qed.

Lemma retarget_type time state photos activePhoto i p :
  type (retarget time state photos activePhoto i p) = type p.
Proof.
  unfold retarget.
  destruct (mode state); [destruct (type p) eqn:Ht | destruct (type p) eqn:Ht
                         | destruct (isActivePhoto activePhoto i)];
    cbn; congruence.
Qed.

Lemma smooth_type state p : type (smooth state p) = type p.
Proof. reflexivity. Qed.

Lemma smooth_targets state p :
  targetPosition (smooth state p) = targetPosition p /\
  targetRotation (smooth state p) = targetRotation p /\
  targetScale (smooth state p) = targetScale p.
Proof. repeat split. Qed.

(** The kind of a particle never changes. *)
Lemma animate_type time state photos activePhoto i p :
  type (animate time state photos activePhoto i p) = type p.
Proof.
  unfold animate. destruct (type p) eqn:Ht.
  - rewrite smooth_type, retarget_type. exact Ht.
  - rewrite smooth_type, retarget_type. exact Ht.
  - cbn. exact Ht.
Qed.

(** A particle that is not DUST is retargeted, then smoothed. *)
Lemma animate_not_dust time state photos activePhoto i p :
  type p <> DUST ->
  animate time state photos activePhoto i p
  = smooth state (retarget time state photos activePhoto i p).
Proof.
  intros Hnd. unfold animate. destruct (type p); [reflexivity|reflexivity|contradiction].
Qed.

(** The smoothed position and scale are one interpolation step from the
    old ones toward the targets of this tick. *)
Lemma smooth_position state p :
  position (mesh (smooth state p))
  = Vector3.lerp (position (mesh p)) (targetPosition p) 0.05.
Proof.
  unfold smooth. cbn.
  destruct (negb (AppMode_eqb (mode state) SCATTER) || ParticleType_eqb (type p) PHOTO);
    reflexivity.
Qed.

Lemma smooth_scale state p :
  scale (mesh (smooth state p))
  = Vector3.lerp (scale (mesh p)) (targetScale p) 0.05.
Proof.
  unfold smooth. cbn.
  destruct (negb (AppMode_eqb (mode state) SCATTER) || ParticleType_eqb (type p) PHOTO);
    reflexivity.
Qed.

(** Retargeting moves no particle, except for the spin of an ornament in
    SCATTER, which leaves position and scale alone too. *)
Lemma retarget_position_scale time state photos activePhoto i p :
  position (mesh (retarget time state photos activePhoto i p)) = position (mesh p) /\
  scale (mesh (retarget time state photos activePhoto i p)) = scale (mesh p).
Proof.
  unfold retarget.
  destruct (mode state); [destruct (type p) | destruct (type p)
                         | destruct (isActivePhoto activePhoto i)];
    split; reflexivity.
Qed.

End UpdateFacts.

(** ** Claims on one tick *)

Section TickClaims.
Context `{QuaternionOps}.

(** C1, amended.  In TREE mode every ORNAMENT particle, at position [i]
    of the array and so of rank [t = i / PARTICLE_COUNT], gets each tick
    the target of the conical helix: [radius = 12 * (1 - t)],
    [angle = 50 * t * PI + 0.2 * time], position
    [(radius * cos angle, t * 25 - 10, radius * sin angle)], orientation
    the yaw by [angle], scale [(1, 1, 1)].  The vertical offset is the
    constant 10, not half the height. *)
Theorem tree_ornament_target (time : R) (state : State) (e : Experience)
    (i : nat) (p : ParticleData) :
  mode state = TREE ->
  nth_error (particles e) i = Some p ->
  type p = PARTICLE ->
  exists p',
    nth_error (particles (update time state e)) i = Some p' /\
    let t := INR i / INR PARTICLE_COUNT in
    let maxRadius := 12 in
    let height := 25 in
    let radius := maxRadius * (1 - t) in
    let angle := 50 * t * PI + 0.2 * time in
    targetPosition p'
    = Vector3.mk (radius * cos angle) (t * height - 10) (radius * sin angle) /\
    targetRotation p' = Euler.mk 0 angle 0 /\
    targetScale p' = Vector3.mk 1 1 1.
Proof.
  intros Hmode Hp Ht. eexists. split; [apply update_nth; exact Hp|].
  cbv zeta. rewrite animate_not_dust by (rewrite Ht; discriminate).
  destruct (smooth_targets state
              (retarget time state (photosOf (particles e))
                 (activePhotoOf state (photosOf (particles e))) i p))
    as (-> & -> & ->).
  unfold retarget. rewrite Hmode, Ht. cbn.
  replace (INR i / INR PARTICLE_COUNT * 50 * PI + time * 0.2)
    with (50 * (INR i / INR PARTICLE_COUNT) * PI + 0.2 * time) by ring.
  repeat split. f_equal; ring.
Qed.

(** C5.  On every tick and in every mode a DUST particle's vertical
    coordinate goes down by 0.05 and, when that value is below -30, is
    set to 30 in the same tick; the result is never below -30.  The
    horizontal coordinates, the orientation, the scale, and every other
    field of the particle, targets included, stay as they were. *)
Theorem dust_falls_and_wraps (time : R) (state : State) (e : Experience)
    (i : nat) (p : ParticleData) :
  nth_error (particles e) i = Some p ->
  type p = DUST ->
  exists p',
    nth_error (particles (update time state e)) i = Some p' /\
    let y1 := Vector3.y (position (mesh p)) - 0.05 in
    (y1 < -30 -> Vector3.y (position (mesh p')) = 30) /\
    (~ y1 < -30 -> Vector3.y (position (mesh p')) = y1) /\
    -30 <= Vector3.y (position (mesh p')) /\
    Vector3.x (position (mesh p')) = Vector3.x (position (mesh p)) /\
    Vector3.z (position (mesh p')) = Vector3.z (position (mesh p)) /\
    rotation (mesh p') = rotation (mesh p) /\
    quaternion (mesh p') = quaternion (mesh p) /\
    scale (mesh p') = scale (mesh p) /\
    type p' = DUST /\
    targetPosition p' = targetPosition p /\
    targetRotation p' = targetRotation p /\
    targetScale p' = targetScale p /\
    velocity p' = velocity p /\
    rotationSpeed p' = rotationSpeed p.
Proof.
  intros Hp Ht. eexists. split; [apply update_nth; exact Hp|].
  unfold animate. rewrite Ht. unfold fall. cbn.
  cmp (Vector3.y (position (mesh p)) - 0.05) (-30);
    repeat split; intros; try assumption; try contradiction; lra.
Qed.

(** C6, amended.  In SCATTER mode an ORNAMENT particle's orientation is
    not interpolated: the tick adds the x and y components of its
    [rotationSpeed] to the x and y Euler angles of the mesh, leaves the z
    angle alone, and the quaternion is the one of these angles.  For
    every other pair of mode and kind among ORNAMENT and PHOTO the
    quaternion is advanced by [slerp] toward the quaternion of the
    particle's target rotation, with factor 0.05. *)
Theorem orientation_paths (time : R) (state : State) (e : Experience)
    (i : nat) (p : ParticleData) :
  nth_error (particles e) i = Some p ->
  type p <> DUST ->
  exists p',
    nth_error (particles (update time state e)) i = Some p' /\
    (mode state = SCATTER -> type p = PARTICLE ->
       rotation (mesh p')
       = Euler.mk (Euler.x (rotation (mesh p)) + Vector3.x (rotationSpeed p))
                  (Euler.y (rotation (mesh p)) + Vector3.y (rotationSpeed p))
                  (Euler.z (rotation (mesh p))) /\
       quaternion (mesh p') = setFromEuler (rotation (mesh p'))) /\
    (~ (mode state = SCATTER /\ type p = PARTICLE) ->
       quaternion (mesh p')
       = slerp (quaternion (mesh p)) (setFromEuler (targetRotation p')) 0.05 /\
       rotation (mesh p') = setFromQuaternion (quaternion (mesh p'))).
Proof.
  intros Hp Hnd. eexists. split; [apply update_nth; exact Hp|].
  rewrite animate_not_dust by exact Hnd.
  unfold smooth, retarget.
  destruct (mode state) eqn:Hm; destruct (type p) eqn:Ht;
    try contradiction; cbn; rewrite ?Ht; cbn;
    try destruct (isActivePhoto _ i); cbn; rewrite ?Ht; cbn;
    (split;
     [ intros; try discriminate; split; reflexivity
     | intros Hn; try (exfalso; apply Hn; split; reflexivity); split; reflexivity ]).
Qed.

(** C7.  In FOCUS mode the particle that is the entry
    [activePhotoIndex mod photoCount] of the list of PHOTO particles gets
    the target position [(0, 2, 35)], the zero target rotation and the
    target scale [(4.5, 4.5, 4.5)]; every other ORNAMENT or PHOTO
    particle gets the ring target of its rank [t] at radius 40 with
    scale [(0.5, 0.5, 0.5)].  With no PHOTO particle every particle gets
    the ring target; with at least one, the active entry exists and is a
    PHOTO particle. *)
Theorem focus_targets (time : R) (state : State) (e : Experience)
    (i : nat) (p : ParticleData) :
  mode state = FOCUS ->
  nth_error (particles e) i = Some p ->
  type p <> DUST ->
  exists p',
    nth_error (particles (update time state e)) i = Some p' /\
    let photos := photosOf (particles e) in
    let photoCount := length photos in
    let t := INR i / INR PARTICLE_COUNT in
    let active :=
      photoCount <> 0%nat /\
      nth_error photos (activePhotoIndex state mod photoCount) = Some i in
    (active ->
       type p = PHOTO /\
       targetPosition p' = Vector3.mk 0 2 35 /\
       targetRotation p' = Euler.mk 0 0 0 /\
       targetScale p' = Vector3.mk 4.5 4.5 4.5) /\
    (~ active ->
       targetPosition p'
       = Vector3.mk (40 * cos (2 * PI * t)) ((t - 0.5) * 60) (40 * sin (2 * PI * t)) /\
       targetScale p' = Vector3.mk 0.5 0.5 0.5) /\
    (photoCount = 0%nat -> ~ active) /\
    (photoCount <> 0%nat ->
       exists a q, nth_error photos (activePhotoIndex state mod photoCount) = Some a /\
                   nth_error (particles e) a = Some q /\ type q = PHOTO).
Proof.
  intros Hmode Hp Hnd. eexists. split; [apply update_nth; exact Hp|].
  cbv zeta. rewrite animate_not_dust by exact Hnd.
  destruct (smooth_targets state
              (retarget time state (photosOf (particles e))
                 (activePhotoOf state (photosOf (particles e))) i p))
    as (-> & -> & ->).
  unfold retarget. rewrite Hmode.
  set (photos := photosOf (particles e)).
  assert (Hact : isActivePhoto (activePhotoOf state photos) i = true <->
                 length photos <> 0%nat /\
                 nth_error photos (activePhotoIndex state mod length photos) = Some i).
  { unfold isActivePhoto, activePhotoOf.
    destruct (length photos) as [|n] eqn:Hlen.
    - split; [discriminate|]. now intros [Hne _].
    - destruct (nth_error photos (activePhotoIndex state mod S n)) as [a|].
      + rewrite Nat.eqb_eq. split.
        * intros ->. split; [discriminate|reflexivity].
        * intros [_ Ha]. now injection Ha.
      + split; [discriminate|]. intros [_ Ha]. discriminate. }
  repeat split.
  - destruct H0 as [_ Hi]. apply nth_error_In in Hi. apply photosOf_In in Hi.
    destruct Hi as (q & Hq & Htq). congruence.
  - apply Hact in H0. now rewrite H0.
  - apply Hact in H0. now rewrite H0.
  - apply Hact in H0. now rewrite H0.
  - destruct (isActivePhoto (activePhotoOf state photos) i) eqn:Hb.
    + exfalso. apply H0, Hact. reflexivity.
    + cbn. f_equal.
      * replace (INR i / INR PARTICLE_COUNT * PI * 2)
          with (2 * PI * (INR i / INR PARTICLE_COUNT)) by ring. ring.
      * replace (INR i / INR PARTICLE_COUNT * PI * 2)
          with (2 * PI * (INR i / INR PARTICLE_COUNT)) by ring. ring.
  - destruct (isActivePhoto (activePhotoOf state photos) i) eqn:Hb.
    + exfalso. apply H0, Hact. reflexivity.
    + reflexivity.
  - intros Hz [Hne _]. contradiction.
  - intros Hne.
    destruct (activePhotoOf_photo state (particles e)) as (a & q & Ha & Hq & Htq).
    + fold photos. intros Hnil. rewrite Hnil in Hne. now apply Hne.
    + exists a, q. fold photos in Ha. unfold activePhotoOf in Ha.
      destruct (length photos) as [|n] eqn:Hlen; [contradiction|].
      repeat split; assumption.
Qed.

End TickClaims.

(** ** One tick on example scenes *)

Lemma tree_ornament_target_witness :
  exists p',
    nth_error (particles (update (H := exampleOps) 3 (stateIn TREE 0) (scene [zSpinner]))) 0
    = Some p' /\
    Vector3.y (targetPosition p') = -10 /\
    targetScale p' = Vector3.mk 1 1 1.
Proof.
  destruct (tree_ornament_target (H := exampleOps) 3 (stateIn TREE 0) (scene [zSpinner])
              0 zSpinner eq_refl eq_refl eq_refl)
    as (p' & Hp' & Hpos & _ & Hscale).
  exists p'. split; [exact Hp'|]. split; [|exact Hscale].
  rewrite Hpos. cbn. unfold Rdiv. rewrite Rmult_0_l. lra.
Defined.

(** C1 as stated fails: the ornament of rank 0 is sent to height -10, not
    to [0 * 25 - 25 / 2]. *)
Lemma tree_ornament_height_not_centred :
  ~ exists (ops : QuaternionOps) (p' : ParticleData),
      nth_error (particles (update 0 (stateIn TREE 0) (scene [zSpinner]))) 0 = Some p' /\
      let t := INR 0 / INR PARTICLE_COUNT in
      let maxRadius := 12 in
      let height := 25 in
      let radius := maxRadius * (1 - t) in
      let angle := 50 * t * PI + 0.2 * 0 in
      targetPosition p'
      = Vector3.mk (radius * cos angle) (t * height - height / 2) (radius * sin angle).
Proof.
  intros (ops & p' & Hp' & Hpos).
  rewrite (update_nth 0 (stateIn TREE 0) (scene [zSpinner]) 0 zSpinner eq_refl) in Hp'.
  injection Hp' as <-. cbv zeta in Hpos.
  apply (f_equal Vector3.y) in Hpos. cbn in Hpos.
  unfold Rdiv in Hpos. rewrite !Rmult_0_l in Hpos. lra.
Qed.

Lemma dust_falls_and_wraps_witness :
  exists p',
    nth_error (particles (update (H := exampleOps) 0 (stateIn SCATTER 0)
                            (scene [newDust (Vector3.mk 1 (-29.98) 2)]))) 0 = Some p' /\
    position (mesh p') = Vector3.mk 1 30 2.
Proof.
  destruct (dust_falls_and_wraps (H := exampleOps) 0 (stateIn SCATTER 0)
              (scene [newDust (Vector3.mk 1 (-29.98) 2)]) 0
              (newDust (Vector3.mk 1 (-29.98) 2)) eq_refl eq_refl)
    as (p' & Hp' & Hwrap & _ & _ & Hx & Hz & _).
  exists p'. split; [exact Hp'|].
  cbn in Hwrap, Hx, Hz.
  destruct (position (mesh p')) as [px py pz]. cbn in *.
  rewrite Hx, Hz, Hwrap by lra. reflexivity.
Defined.

Lemma orientation_paths_witness :
  exists p',
    nth_error (particles (update (H := exampleOps) 0 (stateIn SCATTER 0)
                            (scene [newOrnament (Vector3.mk 0 0 0) (Vector3.mk 0.01 0.02 0.03)])))
              0 = Some p' /\
    rotation (mesh p') = Euler.mk (0 + 0.01) (0 + 0.02) 0.
Proof.
  destruct (orientation_paths (H := exampleOps) 0 (stateIn SCATTER 0)
              (scene [newOrnament (Vector3.mk 0 0 0) (Vector3.mk 0.01 0.02 0.03)]) 0
              (newOrnament (Vector3.mk 0 0 0) (Vector3.mk 0.01 0.02 0.03)) eq_refl)
    as (p' & Hp' & Hspin & _).
  - discriminate.
  - exists p'. split; [exact Hp'|].
    destruct (Hspin eq_refl eq_refl) as [Hrot _]. exact Hrot.
Defined.

(** C6 as stated fails: an ornament whose [rotationSpeed] is [(0, 0, 1)]
    keeps the orientation [(0, 0, 0)] through a SCATTER tick; adding the
    vector would have given [(0, 0, 1)]. *)
Lemma scatter_spin_skips_z :
  ~ exists (ops : QuaternionOps) (p' : ParticleData),
      nth_error (particles (update 0 (stateIn SCATTER 0) (scene [zSpinner]))) 0 = Some p' /\
      rotation (mesh p')
      = Euler.mk (Euler.x (rotation (mesh zSpinner)) + Vector3.x (rotationSpeed zSpinner))
                 (Euler.y (rotation (mesh zSpinner)) + Vector3.y (rotationSpeed zSpinner))
                 (Euler.z (rotation (mesh zSpinner)) + Vector3.z (rotationSpeed zSpinner)).
Proof.
  intros (ops & p' & Hp' & Hrot).
  rewrite (update_nth 0 (stateIn SCATTER 0) (scene [zSpinner]) 0 zSpinner eq_refl) in Hp'.
  injection Hp' as <-.
  apply (f_equal Euler.z) in Hrot. cbn in Hrot. lra.
Qed.

Lemma focus_targets_witness :
  exists p',
    nth_error (particles (update (H := exampleOps) 0 (stateIn FOCUS 3)
                            (scene [zSpinner; newPhoto; newPhoto]))) 2 = Some p' /\
    targetPosition p' = Vector3.mk 0 2 35 /\
    targetScale p' = Vector3.mk 4.5 4.5 4.5.
Proof.
  destruct (focus_targets (H := exampleOps) 0 (stateIn FOCUS 3)
              (scene [zSpinner; newPhoto; newPhoto]) 2 newPhoto eq_refl eq_refl)
    as (p' & Hp' & Hactive & _).
  - discriminate.
  - exists p'. split; [exact Hp'|].
    destruct Hactive as (_ & Hpos & _ & Hscale).
    + split; [discriminate|reflexivity].
    + split; assumption.
Defined.

(** ** Interpolation *)

(** One step of [lerp] at factor 0.05 leaves 0.95 of each coordinate's gap. *)
Lemma lerp_gap (v w : Vector3.t) :
  Vector3.x (Vector3.lerp v w 0.05) - Vector3.x w = 0.95 * (Vector3.x v - Vector3.x w) /\
  Vector3.y (Vector3.lerp v w 0.05) - Vector3.y w = 0.95 * (Vector3.y v - Vector3.y w) /\
  Vector3.z (Vector3.lerp v w 0.05) - Vector3.z w = 0.95 * (Vector3.z v - Vector3.z w).
Proof. unfold Vector3.lerp; cbn; repeat split; lra. Qed.







(** ** Runs of ticks *)

Lemma photosFrom_mapi (f : nat -> ParticleData -> ParticleData) (ps : list ParticleData)
    (j k : nat) :
  (forall i p, type (f i p) = type p) ->
  photosFrom j (mapi_from f k ps) = photosFrom j ps.
Proof.
  intros Hf. revert j k. induction ps as [|p ps IH]; intros j k; cbn; [reflexivity|].
  rewrite Hf, IH. reflexivity.
Qed.

Section RunFacts.
Context `{QuaternionOps}.

(** The list of photos is the same after a tick: kinds do not change. *)
Lemma update_photos (time : R) (state : State) (e : Experience) :
  photosOf (particles (update time state e)) = photosOf (particles e).
Proof.
  unfold photosOf, update. cbn [particles].
  apply photosFrom_mapi. intros i p. apply animate_type.
Qed.

Lemma run_photos (calls : nat -> R * State) (n : nat) (e : Experience) :
  photosOf (particles (run calls n e)) = photosOf (particles e).
Proof.
  induction n as [|n IH]; cbn [run]; [reflexivity|].
  now rewrite update_photos.
Qed.

(** A tick on a particle that is not DUST: its kind is kept, its targets
    are those [retarget] computes, and position and scale make one
    interpolation step toward the targets of this very tick. *)
Lemma update_smooths (time : R) (state : State) (e : Experience) (i : nat) (p : ParticleData) :
  nth_error (particles e) i = Some p ->
  type p <> DUST ->
  exists p',
    nth_error (particles (update time state e)) i = Some p' /\
    type p' = type p /\
    p' = smooth state (retarget time state (photosOf (particles e))
                         (activePhotoOf state (photosOf (particles e))) i p) /\
    position (mesh p') = Vector3.lerp (position (mesh p)) (targetPosition p') 0.05 /\
    scale (mesh p') = Vector3.lerp (scale (mesh p)) (targetScale p') 0.05.
Proof.
  intros Hp Hnd. eexists. split; [apply update_nth; exact Hp|].
  split; [apply animate_type|].
  rewrite animate_not_dust by exact Hnd.
  split; [reflexivity|].
  rewrite smooth_position, smooth_scale.
  set (q := retarget _ _ _ _ _ _).
  destruct (smooth_targets state q) as (-> & _ & ->).
  destruct (retarget_position_scale time state (photosOf (particles e))
              (activePhotoOf state (photosOf (particles e))) i p) as [Hpos Hsc].
  fold q in Hpos, Hsc. rewrite Hpos, Hsc. split; reflexivity.
Qed.

(** A particle stays at its position of the array, with its kind. *)
Lemma run_nth (calls : nat -> R * State) (n : nat) (e : Experience) (i : nat)
    (p0 : ParticleData) :
  nth_error (particles e) i = Some p0 ->
  exists p, nth_error (particles (run calls n e)) i = Some p /\ type p = type p0.
Proof.
  intros Hp0. induction n as [|n (p & Hp & Ht)]; cbn [run].
  - now exists p0.
  - eexists. split; [apply update_nth; exact Hp|].
    rewrite animate_type. exact Ht.
Qed.

(** Frames without a hand leave the state alone and run the ticks. *)
Lemma frames_idle (inputs : nat -> VideoFrame * R) (n : nat) (st : State) (e : Experience) :
  (forall k, fst (inputs k) = NotReady \/ fst (inputs k) = Detected []) ->
  frames inputs n (st, e) = Some (st, run (fun k => (snd (inputs k), st)) n e).
Proof.
  intros Hidle. induction n as [|n IH]; cbn [frames run]; [reflexivity|].
  rewrite IH. unfold frame. cbn [fst snd].
  destruct (Hidle n) as [-> | ->]; reflexivity.
Qed.

End RunFacts.

(** ** Claims on runs of ticks *)

Section RunClaims.
Context `{QuaternionOps}.


End RunClaims.

(** Iterating a step that scales a quantity by [k] scales it by [k ^ n]. *)
Lemma iter_contracts {A : Type} (step : A -> A) (d : A -> R) (k : R) (n : nat) (a : A) :
  (forall q, d (step q) = k * d q) ->
  d (Nat.iter n step a) = k ^ n * d a.
Proof.
  intros Hstep. induction n as [|n IH]; simpl; [ring|].
  rewrite Hstep, IH. ring.
Qed.

Section ModeRuns.
Context `{QuaternionOps}.

(** The targets [retarget] gives an ornament in TREE mode. *)
Lemma retarget_tree_ornament time state photos activePhoto i p :
  mode state = TREE ->
  type p = PARTICLE ->
  let t := INR i / INR PARTICLE_COUNT in
  let angle := t * 50 * PI + time * 0.2 in
  let q := retarget time state photos activePhoto i p in
  targetPosition q
  = Vector3.mk (cos angle * (12 * (1 - t))) (t * 25 - 10) (sin angle * (12 * (1 - t))) /\
  targetRotation q = Euler.mk 0 angle 0 /\
  targetScale q = Vector3.mk 1 1 1.
Proof.
  intros Hm Ht. unfold retarget. rewrite Hm, Ht. cbn. repeat split.
Qed.

(** In a run of TREE ticks the height of an ornament closes 0.05 of its
    gap to [t * 25 - 10] at every tick. *)
Lemma tree_height_gap (calls : nat -> R * State) (n : nat) (e : Experience) (i : nat)
    (p0 : ParticleData) :
  (forall k, mode (snd (calls k)) = TREE) ->
  nth_error (particles e) i = Some p0 ->
  type p0 = PARTICLE ->
  exists p,
    nth_error (particles (run calls n e)) i = Some p /\
    type p = PARTICLE /\
    Vector3.y (position (mesh p)) - (INR i / INR PARTICLE_COUNT * 25 - 10)
    = 0.95 ^ n * (Vector3.y (position (mesh p0)) - (INR i / INR PARTICLE_COUNT * 25 - 10)).
Proof.
  intros Htree Hp0 Ht0. induction n as [|n (p & Hp & Ht & Hgap)]; cbn [run].
  - exists p0. repeat split; try assumption. cbn. ring.
  - destruct (update_smooths (fst (calls n)) (snd (calls n)) (run calls n e) i p Hp)
      as (p' & Hp' & Ht' & Heq & Hpos & _); [rewrite Ht; discriminate|].
    exists p'. split; [exact Hp'|]. split; [congruence|].
    assert (Hty : Vector3.y (targetPosition p') = INR i / INR PARTICLE_COUNT * 25 - 10).
    { rewrite Heq. destruct (smooth_targets (snd (calls n))
        (retarget (fst (calls n)) (snd (calls n)) (photosOf (particles (run calls n e)))
           (activePhotoOf (snd (calls n)) (photosOf (particles (run calls n e)))) i p))
        as (-> & _ & _).
      destruct (retarget_tree_ornament (fst (calls n)) (snd (calls n))
                  (photosOf (particles (run calls n e)))
                  (activePhotoOf (snd (calls n)) (photosOf (particles (run calls n e))))
                  i p (Htree n) Ht) as (-> & _ & _).
      reflexivity. }
    rewrite Hpos.
    destruct (lerp_gap (position (mesh p)) (targetPosition p')) as (_ & Hy & _).
    rewrite Hty in Hy. rewrite Hy, Hgap. cbn [pow]. ring.
Qed.

(** C9, amended.  Start in TREE mode and let [n] display frames pass
    without a hand (in particular [n = 100]).  The run does not throw, the
    mode is still TREE, and every ORNAMENT particle, of rank
    [t = i / PARTICLE_COUNT], has as target position the point of the
    conical helix for the clock reading of the last tick, at height
    [t * 25 - 10].  Its actual position is on the way there: the gap
    between its height and the helix's is [0.95 ^ n] times the gap at the
    start, so it is on the curve's height only if it started there. *)
Theorem tree_idle_run (inputs : nat -> VideoFrame * R) (n : nat) (st : State)
    (e : Experience) :
  mode st = TREE ->
  (forall k, fst (inputs k) = NotReady \/ fst (inputs k) = Detected []) ->
  exists st' e',
    frames inputs n (st, e) = Some (st', e') /\
    mode st' = TREE /\
    forall i p0,
      nth_error (particles e) i = Some p0 ->
      type p0 = PARTICLE ->
      exists p,
        nth_error (particles e') i = Some p /\
        let t := INR i / INR PARTICLE_COUNT in
        let radius := 12 * (1 - t) in
        (forall m, n = S m ->
           let angle := 50 * t * PI + 0.2 * snd (inputs m) in
           targetPosition p
           = Vector3.mk (radius * cos angle) (t * 25 - 10) (radius * sin angle)) /\
        Vector3.y (position (mesh p)) - (t * 25 - 10)
        = 0.95 ^ n * (Vector3.y (position (mesh p0)) - (t * 25 - 10)) /\
        (Vector3.y (position (mesh p0)) <> t * 25 - 10 ->
           Vector3.y (position (mesh p)) <> t * 25 - 10).
Proof.
  intros Hm Hidle.
  exists st, (run (fun k => (snd (inputs k), st)) n e).
  split; [now apply frames_idle|]. split; [exact Hm|].
  intros i p0 Hp0 Ht0.
  destruct (tree_height_gap (fun k => (snd (inputs k), st)) n e i p0 (fun _ => Hm) Hp0 Ht0)
    as (p & Hp & Ht & Hgap).
  exists p. split; [exact Hp|]. cbv zeta. split; [|split; [exact Hgap|]].
  - intros m ->. cbn [run fst snd] in Hp.
    destruct (tree_height_gap (fun k => (snd (inputs k), st)) m e i p0 (fun _ => Hm) Hp0 Ht0)
      as (pm & Hpm & Htm & _).
    rewrite (update_nth _ _ _ _ _ Hpm) in Hp. injection Hp as <-.
    rewrite animate_not_dust by (rewrite Htm; discriminate).
    match goal with |- targetPosition (smooth ?s ?q) = _ =>
      destruct (smooth_targets s q) as (-> & _ & _) end.
    match goal with |- targetPosition (retarget ?a ?b ?c ?d ?i ?p) = _ =>
      destruct (retarget_tree_ornament a b c d i p Hm Htm) as (-> & _ & _) end.
    replace (INR i / INR PARTICLE_COUNT * 50 * PI + snd (inputs m) * 0.2)
      with (50 * (INR i / INR PARTICLE_COUNT) * PI + 0.2 * snd (inputs m)) by ring.
    f_equal; ring.
  - intros Hoff Hon.
    assert (Hpow : 0 < 0.95 ^ n) by (apply pow_lt; lra).
    rewrite Hon in Hgap. nra.
Qed.

(** C10.  Through a run of FOCUS ticks, a particle that is neither DUST
    nor the active photo keeps the target rotation it had when the run
    began, whatever earlier mode wrote it, and every tick advances its
    quaternion by one [slerp] step of factor 0.05 toward the quaternion of
    that kept rotation.  So whatever distance to that quaternion a [slerp]
    step scales by a factor [k], the orientation's distance to it after [n]
    ticks is [k ^ n] times the distance at the start. *)
Theorem focus_stale_orientation (calls : nat -> R * State) (n : nat) (e : Experience)
    (i : nat) (p0 : ParticleData) :
  (forall k, mode (snd (calls k)) = FOCUS) ->
  (forall k, activePhotoOf (snd (calls k)) (photosOf (particles e)) <> Some i) ->
  nth_error (particles e) i = Some p0 ->
  type p0 <> DUST ->
  exists p,
    nth_error (particles (run calls n e)) i = Some p /\
    targetRotation p = targetRotation p0 /\
    quaternion (mesh p)
    = Nat.iter n (fun q => slerp q (setFromEuler (targetRotation p0)) 0.05)
               (quaternion (mesh p0)) /\
    (forall m, n = S m -> rotation (mesh p) = setFromQuaternion (quaternion (mesh p))) /\
    (forall (d : Quaternion.t -> Quaternion.t -> R) (k : R),
        let stale := setFromEuler (targetRotation p0) in
        (forall q, d (slerp q stale 0.05) stale = k * d q stale) ->
        d (quaternion (mesh p)) stale = k ^ n * d (quaternion (mesh p0)) stale).
Proof.
  intros Hfocus Hnot Hp0 Hnd.
  enough (Hrun : exists p,
             nth_error (particles (run calls n e)) i = Some p /\
             targetRotation p = targetRotation p0 /\
             quaternion (mesh p)
             = Nat.iter n (fun q => slerp q (setFromEuler (targetRotation p0)) 0.05)
                        (quaternion (mesh p0)) /\
             (forall m, n = S m ->
                rotation (mesh p) = setFromQuaternion (quaternion (mesh p)))).
  { destruct Hrun as (p & Hp & Hrot & Hq & Hsync). exists p.
    repeat split; try assumption.
    intros d k stale Hd. rewrite Hq.
    exact (iter_contracts (fun q => slerp q stale 0.05) (fun q => d q stale) k n
             (quaternion (mesh p0)) Hd). }
  induction n as [|n (p & Hp & Hrot & Hq & _)]; cbn [run Nat.iter].
  - exists p0. repeat split; try assumption. intros m Hm. discriminate.
  - destruct (run_nth calls n e i p0 Hp0) as (p1 & Hp1 & Ht1).
    rewrite Hp in Hp1. injection Hp1 as <-.
    eexists. split; [apply update_nth; exact Hp|].
    rewrite animate_not_dust by congruence.
    rewrite run_photos.
    assert (Hact : isActivePhoto (activePhotoOf (snd (calls n)) (photosOf (particles e))) i
                   = false).
    { unfold isActivePhoto. specialize (Hnot n).
      destruct (activePhotoOf (snd (calls n)) (photosOf (particles e))) as [a|]; [|reflexivity].
      apply Nat.eqb_neq. congruence. }
    unfold smooth, retarget. rewrite (Hfocus n), Hact. cbn.
    rewrite Hrot, Hq. repeat split.
Qed.

End ModeRuns.

(** ** Runs on example scenes *)


Lemma tree_idle_run_witness :
  exists st' e',
    frames (H := exampleOps) noVideo 100 (initialState, scene [zSpinner]) = Some (st', e') /\
    mode st' = TREE.
Proof.
  destruct (tree_idle_run (H := exampleOps) noVideo 100 initialState (scene [zSpinner])
              eq_refl (fun _ => or_introl eq_refl))
    as (st' & e' & Hrun & Hmode & _).
  exists st', e'. split; assumption.
Defined.

(** C9 as stated fails: after 100 idle frames from the initial state the
    ornament of rank 0, created at the origin, is strictly above height
    -10, so it is neither at the height [0 * 25 - 25 / 2] the claim's helix
    has nor at the height [0 * 25 - 10] of the targets. *)
Lemma helix_not_reached :
  ~ exists (ops : QuaternionOps) (st' : State) (e' : Experience) (p : ParticleData)
           (angle height : R),
      frames noVideo 100 (initialState, scene [zSpinner]) = Some (st', e') /\
      nth_error (particles e') 0 = Some p /\
      let t := INR 0 / INR PARTICLE_COUNT in
      let radius := 12 * (1 - t) in
      (height = t * 25 - 25 / 2 \/ height = t * 25 - 10) /\
      position (mesh p) = Vector3.mk (radius * cos angle) height (radius * sin angle).
Proof.
  intros (ops & st' & e' & p & angle & height & Hrun & Hp & Hh & Hpos).
  rewrite (frames_idle noVideo 100 initialState (scene [zSpinner])
             (fun _ => or_introl eq_refl)) in Hrun.
  assert (He' : e' = run (fun k => (snd (noVideo k), initialState)) 100 (scene [zSpinner]))
    by congruence.
  clear Hrun. subst e'.
  destruct (tree_height_gap (fun k => (snd (noVideo k), initialState)) 100
              (scene [zSpinner]) 0 zSpinner (fun _ => eq_refl) eq_refl eq_refl)
    as (q & Hq & _ & Hgap).
  rewrite Hq in Hp. injection Hp as ->.
  apply (f_equal Vector3.y) in Hpos. cbn [Vector3.y] in Hpos.
  rewrite Hpos in Hgap. cbn [zSpinner newOrnament mesh position Vector3.y] in Hgap.
  assert (Hpow : 0 < 0.95 ^ 100) by (apply pow_lt; lra).
  assert (Ht : INR 0 / INR PARTICLE_COUNT = 0) by (unfold Rdiv; apply Rmult_0_l).
  rewrite Ht in Hgap, Hh.
  destruct Hh as [-> | ->]; nra.
Qed.

(** With [exampleOps] one interpolation step leaves 0.95 of the [taxicab]
    distance to its target. *)
Lemma exampleOps_contracts (q r : Quaternion.t) :
  taxicab (slerp (QuaternionOps := exampleOps) q r 0.05) r = 0.95 * taxicab q r.
Proof.
  unfold taxicab. cbn.
  replace (Quaternion.x q + (Quaternion.x r - Quaternion.x q) * 0.05 - Quaternion.x r)
    with (0.95 * (Quaternion.x q - Quaternion.x r)) by lra.
  replace (Quaternion.y q + (Quaternion.y r - Quaternion.y q) * 0.05 - Quaternion.y r)
    with (0.95 * (Quaternion.y q - Quaternion.y r)) by lra.
  replace (Quaternion.z q + (Quaternion.z r - Quaternion.z q) * 0.05 - Quaternion.z r)
    with (0.95 * (Quaternion.z q - Quaternion.z r)) by lra.
  replace (Quaternion.w q + (Quaternion.w r - Quaternion.w q) * 0.05 - Quaternion.w r)
    with (0.95 * (Quaternion.w q - Quaternion.w r)) by lra.
  rewrite !Rabs_mult, (Rabs_pos_eq 0.95) by lra. ring.
Qed.

Lemma focus_stale_orientation_witness :
  exists p,
    nth_error (particles (run (H := exampleOps) (still (stateIn FOCUS 0)) 2 afterTreeTick)) 0
    = Some p /\
    targetRotation p = Euler.mk 0 (INR 0 / INR PARTICLE_COUNT * 50 * PI + 5 * 0.2) 0 /\
    taxicab (quaternion (mesh p)) (setFromEuler (QuaternionOps := exampleOps) (targetRotation p))
    = 0.95 ^ 2
      * taxicab (slerp (QuaternionOps := exampleOps) (Quaternion.mk 0 0 0 1)
                   (setFromEuler (QuaternionOps := exampleOps) (targetRotation p)) 0.05)
                (setFromEuler (QuaternionOps := exampleOps) (targetRotation p)).
Proof.
  destruct (focus_stale_orientation (H := exampleOps) (still (stateIn FOCUS 0)) 2 afterTreeTick 0
              (animate (H := exampleOps) 5 (stateIn TREE 0) [1%nat] (Some 1%nat) 0 zSpinner))
    as (p & Hp & Hrot & _ & _ & Hdist).
  - intros k. reflexivity.
  - intros k. unfold afterTreeTick. rewrite update_photos. cbn. discriminate.
  - reflexivity.
  - rewrite animate_type. discriminate.
  - exists p. split; [exact Hp|]. split; [rewrite Hrot; reflexivity|].
    rewrite Hrot.
    exact (Hdist taxicab 0.95 (fun q => exampleOps_contracts q _)).
Defined.

(** * Further properties of App.tsx *)

(** ** When [processFrame] throws *)

Lemma measure_None_iff (h : Hand) : measure h = None <-> (length h < 21)%nat.
Proof.
  split.
  - intros Hm. destruct (Nat.lt_ge_cases (length h) 21) as [Hlt|Hge]; [exact Hlt|].
    exfalso. unfold measure in Hm.
    destruct (nth_error h 0) eqn:E0; [|apply nth_error_None in E0; lia].
    destruct (nth_error h 4) eqn:E4; [|apply nth_error_None in E4; lia].
    destruct (nth_error h 8) eqn:E8; [|apply nth_error_None in E8; lia].
    destruct (nth_error h 12) eqn:E12; [|apply nth_error_None in E12; lia].
    destruct (nth_error h 16) eqn:E16; [|apply nth_error_None in E16; lia].
    destruct (nth_error h 20) eqn:E20; [|apply nth_error_None in E20; lia].
    destruct (nth_error h 9) eqn:E9; [|apply nth_error_None in E9; lia].
    discriminate.
  - intros Hlt. unfold measure.
    assert (E20 : nth_error h 20 = None) by (apply nth_error_None; lia).
    rewrite E20.
    destruct (nth_error h 0), (nth_error h 4), (nth_error h 8), (nth_error h 12),
      (nth_error h 16); reflexivity.
Qed.

Lemma measure_firstn (h : Hand) : measure (firstn 21 h) = measure h.
Proof.
  unfold measure. rewrite !nth_error_firstn. reflexivity.
Qed.

(** X1.  [processFrame] throws exactly when the first hand of the frame
    has fewer than 21 landmarks.  Otherwise its result is that of the
    first 21 landmarks of the first hand alone: further hands and further
    landmarks are never read. *)
Theorem processFrame_reads_first_hand (h : Hand) (rest : list Hand) (prev : State) :
  (processFrame (Detected (h :: rest)) prev = None <-> (length h < 21)%nat) /\
  processFrame (Detected (h :: rest)) prev = processFrame (Detected [firstn 21 h]) prev.
Proof.
  split.
  - rewrite <- measure_None_iff. unfold processFrame.
    destruct (measure h) as [[[[hX hY] pd] ad]|]; split; intros; try discriminate;
      reflexivity.
  - unfold processFrame. rewrite measure_firstn. reflexivity.
Qed.

(** ** The gesture does not depend on where the hand is *)

Lemma translate_length (dx dy dz : R) (h : Hand) : length (translate dx dy dz h) = length h.
Proof. unfold translate. apply length_map. Qed.

Lemma translate_landmark (dx dy dz : R) (h : Hand) (k : nat) :
  (k < length h)%nat ->
  HandSpec.landmark (translate dx dy dz h) k
  = NormalizedLandmark.mk (NormalizedLandmark.x (HandSpec.landmark h k) + dx)
                          (NormalizedLandmark.y (HandSpec.landmark h k) + dy)
                          (NormalizedLandmark.z (HandSpec.landmark h k) + dz).
Proof.
  unfold HandSpec.landmark, translate. revert k.
  induction h as [|l h IH]; intros k Hk; cbn in Hk; [lia|].
  destruct k as [|k]; cbn; [reflexivity|]. apply IH. lia.
Qed.

Lemma translate_distance (dx dy dz : R) (h : Hand) (j k : nat) :
  (j < length h)%nat -> (k < length h)%nat ->
  HandSpec.distance (HandSpec.landmark (translate dx dy dz h) j)
                    (HandSpec.landmark (translate dx dy dz h) k)
  = HandSpec.distance (HandSpec.landmark h j) (HandSpec.landmark h k).
Proof.
  intros Hj Hk. rewrite !translate_landmark by assumption.
  unfold HandSpec.distance. cbn. f_equal. ring.
Qed.

(** X2.  Moving a hand of 21 landmarks as a whole changes neither the mode
    nor the photo index the frame leads to; it moves [handX] and [handY]
    by twice the shift along x and y. *)
Theorem gesture_translation_invariant (dx dy dz : R) (h : Hand) (prev : State) :
  length h = 21%nat ->
  exists next moved,
    processFrame (Detected [h]) prev = Some next /\
    processFrame (Detected [translate dx dy dz h]) prev = Some moved /\
    mode moved = mode next /\
    activePhotoIndex moved = activePhotoIndex next /\
    handX moved = handX next + 2 * dx /\
    handY moved = handY next + 2 * dy.
Proof.
  intros Hlen.
  exists (HandSpec.step h prev), (HandSpec.step (translate dx dy dz h) prev).
  split; [now apply processFrame_refines|].
  split; [apply processFrame_refines; now rewrite translate_length|].
  assert (Hp : HandSpec.pinchDistance (translate dx dy dz h) = HandSpec.pinchDistance h).
  { unfold HandSpec.pinchDistance. apply translate_distance; lia. }
  assert (Ha : HandSpec.avgFingerSpread (translate dx dy dz h) = HandSpec.avgFingerSpread h).
  { unfold HandSpec.avgFingerSpread. rewrite !translate_distance by lia. reflexivity. }
  unfold HandSpec.step. rewrite Hp, Ha. cbn [mode activePhotoIndex handX handY].
  repeat split; unfold HandSpec.pointX, HandSpec.pointY;
    rewrite translate_landmark by lia; cbn; ring.
Qed.

Lemma gesture_translation_invariant_witness :
  exists next moved,
    processFrame (Detected [exampleHand 0.5 0.3 0.5 0.5]) initialState = Some next /\
    processFrame (Detected [translate 0.1 0.2 0.3 (exampleHand 0.5 0.3 0.5 0.5)]) initialState
    = Some moved /\
    mode moved = mode next.
Proof.
  destruct (gesture_translation_invariant 0.1 0.2 0.3 (exampleHand 0.5 0.3 0.5 0.5)
              initialState (exampleHand_length _ _ _ _))
    as (next & moved & H1 & H2 & H3 & _).
  exists next, moved. repeat split; assumption.
Defined.

(** ** Invariants of the state across actions *)

Lemma dispatchAll_app (t1 t2 : list Action) (s : State) :
  dispatchAll (t1 ++ t2) s = dispatchAll t2 (dispatchAll t1 s).
Proof. unfold dispatchAll. apply fold_left_app. Qed.

Lemma dispatchAll_cons (a : Action) (t : list Action) (s : State) :
  dispatchAll (a :: t) s = dispatchAll t (dispatch a s).
Proof. reflexivity. Qed.

(** The fields [updater] copies. *)
Lemma updater_copies (hX hY pd ad : R) (prev : State) :
  isPinching (updater hX hY pd ad prev) = isPinching prev /\
  isFist (updater hX hY pd ad prev) = isFist prev /\
  isOpen (updater hX hY pd ad prev) = isOpen prev /\
  loading (updater hX hY pd ad prev) = loading prev /\
  uiHidden (updater hX hY pd ad prev) = uiHidden prev /\
  handX (updater hX hY pd ad prev) = hX /\
  handY (updater hX hY pd ad prev) = hY.
Proof.
  unfold updater.
  destruct (pd <? GESTURE_THRESHOLDS.PINCH);
    [destruct (negb (AppMode_eqb (mode prev) FOCUS))
    |destruct (ad <? GESTURE_THRESHOLDS.FIST);
     [|destruct (ad >? GESTURE_THRESHOLDS.OPEN)]];
    repeat split.
Qed.

(** One action: the gesture flags are copied, [loading] can only fall,
    [uiHidden] flips exactly on a press of H. *)
Lemma dispatch_flags (a : Action) (s : State) :
  isPinching (dispatch a s) = isPinching s /\
  isFist (dispatch a s) = isFist s /\
  isOpen (dispatch a s) = isOpen s /\
  loading (dispatch a s) = loading s && negb (isLoadingDone a) /\
  uiHidden (dispatch a s) = xorb (uiHidden s) (isHPress a).
Proof.
  destruct a as [|v|key]; cbn.
  - repeat split; [now rewrite andb_false_r | now rewrite xorb_false_r].
  - destruct (processFrame v s) as [next|] eqn:Hn.
    + destruct v as [|[|h rest]]; cbn in Hn.
      * injection Hn as <-. repeat split;
          [now rewrite andb_true_r | now rewrite xorb_false_r].
      * injection Hn as <-. repeat split;
          [now rewrite andb_true_r | now rewrite xorb_false_r].
      * destruct (measure h) as [[[[hX hY] pd] ad]|]; [|discriminate].
        injection Hn as <-.
        destruct (updater_copies hX hY pd ad s) as (-> & -> & -> & -> & -> & _).
        repeat split; [now rewrite andb_true_r | now rewrite xorb_false_r].
    + repeat split; [now rewrite andb_true_r | now rewrite xorb_false_r].
  - unfold handleKey. destruct (Keys.isH key); cbn; repeat split;
      try (now rewrite andb_true_r); try (now rewrite xorb_false_r);
      try (now rewrite xorb_true_r).
Qed.

(** X3.  Through any sequence of actions the flags [isPinching], [isFist]
    and [isOpen] keep the value they started with (no gesture ever sets
    them); [loading] is true afterwards only if it was true before and no
    action ended loading; [uiHidden] is flipped once per press of H, so it
    differs from its first value exactly when H was pressed an odd number
    of times. *)
Theorem flags_across_actions (trace : list Action) (s : State) :
  isPinching (dispatchAll trace s) = isPinching s /\
  isFist (dispatchAll trace s) = isFist s /\
  isOpen (dispatchAll trace s) = isOpen s /\
  loading (dispatchAll trace s) = loading s && negb (existsb isLoadingDone trace) /\
  uiHidden (dispatchAll trace s)
  = xorb (uiHidden s) (Nat.odd (length (filter isHPress trace))).
Proof.
  revert s. induction trace as [|a trace IH]; intros s.
  - cbn. repeat split; [now rewrite andb_true_r | now rewrite xorb_false_r].
  - rewrite dispatchAll_cons.
    destruct (IH (dispatch a s)) as (-> & -> & -> & -> & ->).
    destruct (dispatch_flags a s) as (-> & -> & -> & -> & ->).
    repeat split.
    + cbn [existsb]. rewrite negb_orb, andb_assoc. reflexivity.
    + cbn [filter]. destruct (isHPress a); cbn [length].
      * rewrite Nat.odd_succ, <- Nat.negb_odd.
        destruct (uiHidden s), (Nat.odd (length (filter isHPress trace))); reflexivity.
      * now rewrite xorb_false_r.
Qed.

(** One action: the photo index grows by one when the action takes the
    mode into FOCUS from another mode, and not otherwise. *)
Lemma dispatch_index (a : Action) (s : State) :
  activePhotoIndex (dispatch a s)
  = (activePhotoIndex s
     + (if negb (AppMode_eqb (mode s) FOCUS) && AppMode_eqb (mode (dispatch a s)) FOCUS
        then 1 else 0))%nat.
Proof.
  assert (Hsame : forall s', mode s' = mode s -> activePhotoIndex s' = activePhotoIndex s ->
            activePhotoIndex s'
            = (activePhotoIndex s
               + (if negb (AppMode_eqb (mode s) FOCUS) && AppMode_eqb (mode s') FOCUS
                  then 1 else 0))%nat).
  { intros s' -> ->. destruct (mode s); cbn; lia. }
  destruct a as [|v|key]; cbn.
  - now apply Hsame.
  - destruct v as [|[|h rest]]; cbn; try now apply Hsame.
    destruct (measure h) as [[[[hX hY] pd] ad]|]; [|now apply Hsame].
    unfold updater.
    destruct (pd <? GESTURE_THRESHOLDS.PINCH);
      [|destruct (ad <? GESTURE_THRESHOLDS.FIST);
        [|destruct (ad >? GESTURE_THRESHOLDS.OPEN)]];
      destruct (mode s); cbn; lia.
  - unfold handleKey. destruct (Keys.isH key); now apply Hsame.
Qed.

(** X4.  From the initial state, after any sequence of actions, the photo
    index is the number of times the mode went from TREE or SCATTER into
    FOCUS; so it is at least 1 whenever the mode is FOCUS, and an index of
    0 means FOCUS was never entered. *)
Theorem activePhotoIndex_counts_entries (trace : list Action) :
  activePhotoIndex (dispatchAll trace initialState) = focusEntries trace initialState /\
  (mode (dispatchAll trace initialState) = FOCUS ->
     (1 <= activePhotoIndex (dispatchAll trace initialState))%nat).
Proof.
  assert (Hgen : forall t s,
             activePhotoIndex (dispatchAll t s)
             = (activePhotoIndex s + focusEntries t s)%nat /\
             ((mode s = FOCUS -> (1 <= activePhotoIndex s)%nat) ->
              mode (dispatchAll t s) = FOCUS ->
              (1 <= activePhotoIndex (dispatchAll t s))%nat)).
  { induction t as [|a t IH]; intros s.
    - cbn. split; [lia|auto].
    - rewrite dispatchAll_cons. destruct (IH (dispatch a s)) as [Hidx Hfocus].
      split.
      + rewrite Hidx. cbn [focusEntries]. rewrite (dispatch_index a s). lia.
      + intros Hs. apply Hfocus. intros Hm. rewrite (dispatch_index a s), Hm.
        destruct (mode s) eqn:Es; cbn; try lia.
        specialize (Hs eq_refl). lia. }
  destruct (Hgen trace initialState) as [Hidx Hfocus]. split.
  - rewrite Hidx. reflexivity.
  - apply Hfocus. discriminate.
Qed.

(** ** The H key *)

Lemma isH_iff (key : String.string) :
  Keys.isH key = true <-> key = Keys.lowerH \/ key = Keys.upperH.
Proof.
  unfold Keys.isH, Keys.lowerH, Keys.upperH. rewrite String.eqb_eq. split.
  - destruct key as [|c [|c' k]]; cbn; try discriminate.
    intros Hc. injection Hc as Hc.
    destruct c as [[] [] [] [] [] [] [] []]; cbv in Hc; try discriminate; auto.
  - intros [-> | ->]; reflexivity.
Qed.

(** X5.  A key press changes the state exactly when the key is "h" or
    "H"; it then flips [uiHidden] and nothing else (the state after it is
    the state before it with [uiHidden] negated, every other field as it
    was), so a second press of the same key restores the state. *)
Theorem handleKey_toggles (key : String.string) (s : State) :
  (handleKey key s <> s <-> key = Keys.lowerH \/ key = Keys.upperH) /\
  handleKey key (handleKey key s) = s /\
  uiHidden (handleKey key s) = xorb (uiHidden s) (Keys.isH key) /\
  mode (handleKey key s) = mode s /\
  activePhotoIndex (handleKey key s) = activePhotoIndex s /\
  handX (handleKey key s) = handX s /\
  handY (handleKey key s) = handY s /\
  loading (handleKey key s) = loading s /\
  isPinching (handleKey key s) = isPinching s /\
  isFist (handleKey key s) = isFist s /\
  isOpen (handleKey key s) = isOpen s /\
  handleKey key s
  = {| mode := mode s; handX := handX s; handY := handY s;
       isPinching := isPinching s; isFist := isFist s; isOpen := isOpen s;
       activePhotoIndex := activePhotoIndex s; loading := loading s;
       uiHidden := xorb (uiHidden s) (Keys.isH key) |}.
Proof.
  rewrite <- isH_iff. unfold handleKey.
  destruct (Keys.isH key) eqn:Hk; destruct s as [m hx hy f1 f2 f3 k l u]; cbn.
  - split; [split|].
    + reflexivity.
    + intros _ Heq. apply (f_equal uiHidden) in Heq. cbn in Heq. now destruct u.
    + rewrite negb_involutive, xorb_true_r. repeat split.
  - split; [split|].
    + intros Hne. now contradiction Hne.
    + discriminate.
    + rewrite xorb_false_r. repeat split.
Qed.

(** ** The pointing signal stays in range *)

Lemma dispatch_pointing (a : Action) (s : State) :
  (forall v, a = FrameSeen v -> centreInView v) ->
  -1 <= handX s <= 1 -> -1 <= handY s <= 1 ->
  -1 <= handX (dispatch a s) <= 1 /\ -1 <= handY (dispatch a s) <= 1.
Proof.
  intros Hview HX HY. destruct a as [|v|key]; cbn.
  - now split.
  - specialize (Hview v eq_refl).
    destruct v as [|[|h rest]]; cbn; try now split.
    unfold measure. unfold centreInView in Hview.
    destruct (nth_error h 0), (nth_error h 4), (nth_error h 8), (nth_error h 12),
      (nth_error h 16), (nth_error h 20), (nth_error h 9) as [c|]; try now split.
    match goal with |- context [updater ?a ?b ?c ?d s] =>
      destruct (updater_copies a b c d s) as (_ & _ & _ & _ & _ & -> & ->) end.
    lra.
  - unfold handleKey. destruct (Keys.isH key); now split.
Qed.

(** X6.  If landmark 9 of every hand seen has its x and y within
    [[0, 1]], then [handX] and [handY], once within [[-1, 1]], stay within
    [[-1, 1]] through any sequence of actions. *)
Theorem pointing_within_unit (trace : list Action) (s : State) :
  (forall v, In (FrameSeen v) trace -> centreInView v) ->
  -1 <= handX s <= 1 -> -1 <= handY s <= 1 ->
  -1 <= handX (dispatchAll trace s) <= 1 /\ -1 <= handY (dispatchAll trace s) <= 1.
Proof.
  revert s. induction trace as [|a trace IH]; intros s Hview HX HY.
  - now split.
  - rewrite dispatchAll_cons.
    destruct (dispatch_pointing a s) as [HX' HY']; try assumption.
    + intros v ->. apply Hview. now left.
    + apply IH; try assumption. intros v Hin. apply Hview. now right.
Qed.

Lemma pointing_within_unit_witness :
  -1 <= handX (dispatchAll [FrameSeen (Detected [exampleHand 0.5 0.3 0.9 0.1]); LoadingDone]
                 initialState) <= 1.
Proof.
  apply (pointing_within_unit
           [FrameSeen (Detected [exampleHand 0.5 0.3 0.9 0.1]); LoadingDone] initialState).
  - intros v [Hv | [Hv | []]]; [|discriminate].
    injection Hv as <-. cbn. lra.
  - cbn. lra.
  - cbn. lra.
Defined.

(** * Further properties of Experience *)

(** ** The rotation of the root group *)

Section RootRotation.
Context `{QuaternionOps}.

Lemma session_cons (c : Call) (cs : list Call) (e : Experience) :
  session (c :: cs) e = session cs (call c e).
Proof. reflexivity. Qed.

(** One tick moves the yaw 0.1 of the way to [handX * PI] and the pitch
    0.1 of the way to [handY * PI * 0.5]. *)
Lemma update_mainGroup (time : R) (state : State) (e : Experience) :
  Euler.y (mainGroup_rotation (update time state e)) - handX state * PI
  = 0.9 * (Euler.y (mainGroup_rotation e) - handX state * PI) /\
  Euler.x (mainGroup_rotation (update time state e)) - handY state * PI * 0.5
  = 0.9 * (Euler.x (mainGroup_rotation e) - handY state * PI * 0.5) /\
  Euler.z (mainGroup_rotation (update time state e)) = Euler.z (mainGroup_rotation e).
Proof.
  unfold update, MathUtils_lerp. cbn. repeat split; lra.
Qed.

(** X7.  While the hand signal handed to [update] is within [[-1, 1]], a
    root group whose yaw is within [[-PI, PI]] and whose pitch is within
    [[-PI/2, PI/2]] stays so through any sequence of ticks and photo
    uploads; its roll never changes. *)
Theorem mainGroup_rotation_bounded (cs : list Call) (e : Experience) :
  (forall c, In c cs -> handInRange c) ->
  - PI <= Euler.y (mainGroup_rotation e) <= PI ->
  - (PI / 2) <= Euler.x (mainGroup_rotation e) <= PI / 2 ->
  - PI <= Euler.y (mainGroup_rotation (session cs e)) <= PI /\
  - (PI / 2) <= Euler.x (mainGroup_rotation (session cs e)) <= PI / 2 /\
  Euler.z (mainGroup_rotation (session cs e)) = Euler.z (mainGroup_rotation e).
Proof.
  revert e. induction cs as [|c cs IH]; intros e Hrange Hy Hx.
  - cbn. repeat split; lra.
  - rewrite session_cons.
    assert (Hc : handInRange c) by (apply Hrange; now left).
    assert (Hstep : - PI <= Euler.y (mainGroup_rotation (call c e)) <= PI /\
                    - (PI / 2) <= Euler.x (mainGroup_rotation (call c e)) <= PI / 2 /\
                    Euler.z (mainGroup_rotation (call c e)) = Euler.z (mainGroup_rotation e)).
    { destruct c as [time state|]; cbn [call].
      - destruct (update_mainGroup time state e) as (Hgy & Hgx & Hgz).
        cbn in Hc. destruct Hc as [HhX HhY].
        pose proof PI_RGT_0 as Hpi.
        repeat split; try exact Hgz; nra.
      - cbn. repeat split; lra. }
    destruct Hstep as (Hy' & Hx' & Hz').
    destruct (IH (call c e)) as (Hy'' & Hx'' & Hz''); try assumption.
    + intros c' Hin. apply Hrange. now right.
    + repeat split; lra.
Qed.


End RootRotation.

Lemma mainGroup_rotation_bounded_witness :
  - PI <= Euler.y (mainGroup_rotation
                     (session (H := exampleOps) [Update 0 (stateIn TREE 0); AddPhoto]
                        (scene [zSpinner]))) <= PI.
Proof.
  pose proof PI_RGT_0 as Hpi.
  apply (mainGroup_rotation_bounded (H := exampleOps) [Update 0 (stateIn TREE 0); AddPhoto]
           (scene [zSpinner])).
  - intros c [<- | [<- | []]]; cbn; [lra|exact I].
  - cbn. lra.
  - cbn. lra.
Defined.


(** ** The list of photos *)

Lemma photosFrom_app (l1 l2 : list ParticleData) (k : nat) :
  photosFrom k (l1 ++ l2) = photosFrom k l1 ++ photosFrom (k + length l1) l2.
Proof.
  revert k. induction l1 as [|p l1 IH]; intros k; cbn.
  - now rewrite Nat.add_0_r.
  - rewrite IH. replace (S k + length l1)%nat with (k + S (length l1))%nat by lia.
    destruct (ParticleType_eqb (type p) PHOTO); reflexivity.
Qed.

Lemma photosFrom_lower (ps : list ParticleData) (k j : nat) :
  In j (photosFrom k ps) -> (k <= j)%nat.
Proof. intros Hin. now apply photosFrom_In in Hin. Qed.

Lemma photosFrom_NoDup (ps : list ParticleData) (k : nat) : NoDup (photosFrom k ps).
Proof.
  revert k. induction ps as [|p ps IH]; intros k; cbn; [constructor|].
  destruct (ParticleType_eqb (type p) PHOTO); [|apply IH].
  constructor; [|apply IH].
  intros Hin. apply photosFrom_lower in Hin. lia.
Qed.

(** [indexOf] returns [-1] for an absent element and otherwise a position
    that holds the element. *)
Lemma indexOf_spec (l : list nat) (p : nat) :
  (~ In p l /\ indexOf l p = (-1)%Z) \/
  (exists k, indexOf l p = Z.of_nat k /\ nth_error l k = Some p).
Proof.
  induction l as [|q l IH]; cbn [indexOf].
  - left. split; [easy|reflexivity].
  - destruct (Nat.eqb q p) eqn:Hq.
    + right. exists 0%nat. apply Nat.eqb_eq in Hq. subst q. split; reflexivity.
    + apply Nat.eqb_neq in Hq.
      destruct IH as [[Hnin ->] | (k & -> & Hk)].
      * left. split; [|reflexivity]. intros [Heq | Hin]; [now apply Hq | now apply Hnin].
      * right. exists (S k). split; [|exact Hk].
        destruct k; cbn; [reflexivity|]. f_equal. lia.
Qed.

Lemma indexOf_nth (l : list nat) (p k : nat) :
  NoDup l -> nth_error l k = Some p -> indexOf l p = Z.of_nat k.
Proof.
  intros Hnd Hk.
  destruct (indexOf_spec l p) as [[Hnin _] | (j & -> & Hj)].
  - exfalso. apply Hnin. eapply nth_error_In. exact Hk.
  - f_equal. apply (proj1 (NoDup_nth_error l) Hnd).
    + apply nth_error_Some. rewrite Hj. discriminate.
    + congruence.
Qed.

(** The ordinal of a photo among the photos. *)
Lemma photo_ordinal_of (ps : list ParticleData) (i : nat) (p : ParticleData) :
  nth_error ps i = Some p ->
  (type p = PHOTO ->
     let k := length (photosOf (firstn i ps)) in
     indexOf (photosOf ps) i = Z.of_nat k /\
     (k < length (photosOf ps))%nat /\
     nth_error (photosOf ps) k = Some i) /\
  (type p <> PHOTO -> indexOf (photosOf ps) i = (-1)%Z).
Proof.
  intros Hp. split.
  - intros Ht. cbv zeta.
    assert (Hsplit : ps = firstn i ps ++ p :: skipn (S i) ps).
    { rewrite <- (firstn_skipn i ps) at 1. f_equal.
      clear Ht. revert i Hp. induction ps as [|q ps IH]; intros [|i] Hp; cbn in *;
        try discriminate; [congruence|]. now apply IH. }
    assert (Hlen : length (firstn i ps) = i).
    { apply firstn_length_le. apply Nat.lt_le_incl, nth_error_Some. rewrite Hp. discriminate. }
    assert (Hphotos : photosOf ps
                      = photosOf (firstn i ps) ++ i :: photosFrom (S i) (skipn (S i) ps)).
    { unfold photosOf. rewrite Hsplit at 1. rewrite photosFrom_app. cbn [photosFrom].
      rewrite Ht. cbn. rewrite Hlen. reflexivity. }
    assert (Hk : nth_error (photosOf ps) (length (photosOf (firstn i ps))) = Some i).
    { rewrite Hphotos. rewrite nth_error_app2 by lia. now rewrite Nat.sub_diag. }
    split; [|split; [|exact Hk]].
    + apply indexOf_nth; [apply photosFrom_NoDup|exact Hk].
    + apply nth_error_Some. rewrite Hk. discriminate.
  - intros Ht. destruct (indexOf_spec (photosOf ps) i) as [[_ Hidx] | (k & _ & Hk)];
      [exact Hidx|].
    apply nth_error_In, photosOf_In in Hk. destruct Hk as (q & Hq & Htq). congruence.
Qed.

(** X9.  For a PHOTO particle at position [i] of the array,
    [photos.indexOf(p)] is its ordinal among the photos, the number of
    PHOTO particles before position [i]: it is never [-1], it is below the
    number of photos, and [photos] holds [p] at it.  For a particle of
    another kind it is [-1]. *)
Theorem photo_ordinal (ps : list ParticleData) (i : nat) (p : ParticleData) :
  nth_error ps i = Some p ->
  (type p = PHOTO ->
     let k := length (photosOf (firstn i ps)) in
     indexOf (photosOf ps) i = Z.of_nat k /\
     (k < length (photosOf ps))%nat /\
     nth_error (photosOf ps) k = Some i) /\
  (type p <> PHOTO -> indexOf (photosOf ps) i = (-1)%Z).
Proof. exact (photo_ordinal_of ps i p). Qed.

Lemma photo_ordinal_witness :
  indexOf (photosOf [newPhoto; zSpinner; newPhoto]) 2 = 1%Z.
Proof.
  exact (proj1 (proj1 (photo_ordinal [newPhoto; zSpinner; newPhoto] 2 newPhoto eq_refl)
                  eq_refl)).
Defined.

(** ** Adding a photo *)

(** X10.  [addPhoto] puts one PHOTO particle after all others: every
    particle keeps its position (hence its rank [t]), the list of photos
    gains the new position at its end, and a photo index below the former
    number of photos selects the same active photo as before. *)
Theorem addPhoto_appends (e : Experience) :
  particles (addPhoto e) = particles e ++ [newPhoto] /\
  (forall i p, nth_error (particles e) i = Some p ->
               nth_error (particles (addPhoto e)) i = Some p) /\
  photosOf (particles (addPhoto e)) = photosOf (particles e) ++ [length (particles e)] /\
  mainGroup_rotation (addPhoto e) = mainGroup_rotation e /\
  (forall state,
      (activePhotoIndex state < length (photosOf (particles e)))%nat ->
      activePhotoOf state (photosOf (particles (addPhoto e)))
      = activePhotoOf state (photosOf (particles e))).
Proof.
  assert (Hphotos : photosOf (particles (addPhoto e))
                    = photosOf (particles e) ++ [length (particles e)]).
  { unfold photosOf, addPhoto. cbn [particles]. rewrite photosFrom_app. reflexivity. }
  split; [reflexivity|]. split; [|split; [exact Hphotos|split; [reflexivity|]]].
  - intros i p Hp. unfold addPhoto. cbn [particles].
    rewrite nth_error_app1; [exact Hp|]. apply nth_error_Some. rewrite Hp. discriminate.
  - intros state Hk. rewrite Hphotos. unfold activePhotoOf.
    rewrite length_app. cbn [length].
    destruct (length (photosOf (particles e))) as [|n] eqn:Hn; [lia|].
    replace (S n + 1)%nat with (S (S n)) by lia.
    rewrite !Nat.mod_small by lia.
    rewrite nth_error_app1 by lia. reflexivity.
Qed.

(** ** What a session keeps *)

Section SessionFacts.
Context `{QuaternionOps}.

(** A relation between a particle and its later self that every tick
    extends holds across a session, at the particle's position. *)
Lemma session_nth (R : ParticleData -> ParticleData -> Prop) :
  (forall p, R p p) ->
  (forall p q r, R p q -> R q r -> R p r) ->
  (forall time state photos activePhoto i p,
      R p (animate time state photos activePhoto i p)) ->
  forall cs e i p,
    nth_error (particles e) i = Some p ->
    exists p', nth_error (particles (session cs e)) i = Some p' /\ R p p'.
Proof.
  intros Hrefl Htrans Hstep cs. induction cs as [|c cs IH]; intros e i p Hp.
  - exists p. split; [exact Hp|apply Hrefl].
  - rewrite session_cons. destruct c as [time state|]; cbn [call].
    + destruct (IH (update time state e) i _ (update_nth time state e i p Hp))
        as (p' & Hp' & HR).
      exists p'. split; [exact Hp'|]. eapply Htrans; [apply Hstep|exact HR].
    + destruct (IH (addPhoto e) i p) as (p' & Hp' & HR).
      * unfold addPhoto. cbn [particles]. rewrite nth_error_app1; [exact Hp|].
        apply nth_error_Some. rewrite Hp. discriminate.
      * exists p'. split; assumption.
Qed.

(** A property of particles that every tick keeps and a new photo has
    holds of all particles after a session if it held before. *)
Lemma session_invariant (P : ParticleData -> Prop) :
  (forall time state photos activePhoto i p,
      P p -> P (animate time state photos activePhoto i p)) ->
  P newPhoto ->
  forall cs e,
    (forall i p, nth_error (particles e) i = Some p -> P p) ->
    forall i p, nth_error (particles (session cs e)) i = Some p -> P p.
Proof.
  intros Hstep Hnew cs. induction cs as [|c cs IH]; intros e Hall i p Hp.
  - now apply (Hall i).
  - rewrite session_cons in Hp. apply (IH (call c e)) with (i := i); [|exact Hp].
    intros j q Hq. destruct c as [time state|]; cbn [call] in Hq.
    + unfold update in Hq. cbn [particles] in Hq.
      rewrite nth_error_mapi_from in Hq.
      destruct (nth_error (particles e) j) as [q0|] eqn:Hq0; [|discriminate].
      cbn in Hq. injection Hq as <-. apply Hstep. now apply (Hall j).
    + unfold addPhoto in Hq. cbn [particles] in Hq.
      destruct (Nat.lt_ge_cases j (length (particles e))) as [Hlt|Hge].
      * rewrite nth_error_app1 in Hq by exact Hlt. now apply (Hall j).
      * rewrite nth_error_app2 in Hq by exact Hge.
        destruct (j - length (particles e))%nat as [|[|]]; cbn in Hq; try discriminate.
        injection Hq as <-. exact Hnew.
Qed.

Lemma animate_keeps (time : R) (state : State) (photos : list nat)
    (activePhoto : option nat) (i : nat) (p : ParticleData) :
  velocity (animate time state photos activePhoto i p) = velocity p /\
  rotationSpeed (animate time state photos activePhoto i p) = rotationSpeed p.
Proof.
  unfold animate, smooth, retarget, fall.
  destruct (type p); destruct (mode state); try destruct (isActivePhoto activePhoto i);
    split; reflexivity.
Qed.

Lemma session_length (cs : list Call) (e : Experience) :
  length (particles (session cs e))
  = (length (particles e) + length (filter isAddPhoto cs))%nat.
Proof.
  revert e. induction cs as [|c cs IH]; intros e.
  - cbn. lia.
  - rewrite session_cons, IH. destruct c as [time state|]; cbn [call filter isAddPhoto].
    + now rewrite update_length.
    + unfold addPhoto. cbn [particles length]. rewrite length_app. cbn. lia.
Qed.

(** X11.  Through any sequence of ticks and photo uploads every particle
    stays at its position of the array and keeps its kind, its velocity
    and its spin rate; the array grows by exactly one particle per upload
    and never shrinks. *)
Theorem session_keeps_particles (cs : list Call) (e : Experience) :
  length (particles (session cs e))
  = (length (particles e) + length (filter isAddPhoto cs))%nat /\
  forall i p,
    nth_error (particles e) i = Some p ->
    exists p',
      nth_error (particles (session cs e)) i = Some p' /\
      type p' = type p /\
      velocity p' = velocity p /\
      rotationSpeed p' = rotationSpeed p.
Proof.
  split; [apply session_length|].
  intros i p Hp.
  apply (session_nth (fun p p' => type p' = type p /\ velocity p' = velocity p /\
                                  rotationSpeed p' = rotationSpeed p)); try assumption.
  - intros q. repeat split.
  - intros p1 p2 p3 (Ht & Hv & Hs) (Ht' & Hv' & Hs'). repeat split; congruence.
  - intros time state photos activePhoto j q.
    destruct (animate_keeps time state photos activePhoto j q) as [Hv Hs].
    split; [apply animate_type|]. now split.
Qed.

(** ** Scale *)

Lemma lerp_within (lo hi : R) (v w : Vector3.t) :
  within lo hi v -> within lo hi w -> within lo hi (Vector3.lerp v w 0.05).
Proof.
  unfold within, Vector3.lerp. cbn. intros (Hx & Hy & Hz) (Hx' & Hy' & Hz').
  repeat split; lra.
Qed.

Lemma animate_scale_within (time : R) (state : State) (photos : list nat)
    (activePhoto : option nat) (i : nat) (p : ParticleData) :
  within 0.5 4.5 (scale (mesh p)) ->
  within 0.5 4.5 (scale (mesh (animate time state photos activePhoto i p))).
Proof.
  intros Hs.
  assert (Hother : type p <> DUST ->
            within 0.5 4.5
              (scale (mesh (smooth state (retarget time state photos activePhoto i p))))).
  { intros Hnd. rewrite smooth_scale.
    destruct (retarget_position_scale time state photos activePhoto i p) as [_ ->].
    apply lerp_within; [exact Hs|].
    unfold retarget.
    destruct (mode state); [destruct (type p) eqn:Ht | destruct (type p) eqn:Ht
                           | destruct (isActivePhoto activePhoto i)];
      try contradiction; cbn; unfold within; cbn; repeat split; lra. }
  unfold animate. destruct (type p) eqn:Ht.
  - apply Hother. discriminate.
  - apply Hother. discriminate.
  - exact Hs.
Qed.

(** X12.  If every particle's scale has its three components within
    [[0.5, 4.5]], as the scale [(1, 1, 1)] of a new particle has, then
    this is so after any sequence of ticks, in any modes, and photo
    uploads: no scale ever turns negative or grows without bound. *)
Theorem scale_stays_bounded (cs : list Call) (e : Experience) :
  (forall i p, nth_error (particles e) i = Some p -> within 0.5 4.5 (scale (mesh p))) ->
  forall i p,
    nth_error (particles (session cs e)) i = Some p -> within 0.5 4.5 (scale (mesh p)).
Proof.
  apply (session_invariant (fun p => within 0.5 4.5 (scale (mesh p)))).
  - intros time state photos activePhoto i p. apply animate_scale_within.
  - unfold within. cbn. repeat split; lra.
Qed.

(** ** Dust *)

Lemma fall_height (p : ParticleData) :
  let y := Vector3.y (position (mesh p)) in
  let y' := Vector3.y (position (mesh (fall p))) in
  (-30 <= y - 0.05 -> y' = y - 0.05) /\
  (y - 0.05 < -30 -> y' = 30) /\
  Vector3.x (position (mesh (fall p))) = Vector3.x (position (mesh p)) /\
  Vector3.z (position (mesh (fall p))) = Vector3.z (position (mesh p)).
Proof.
  unfold fall. cbn.
  cmp (Vector3.y (position (mesh p)) - 0.05) (-30); repeat split; intros; lra.
Qed.

(** X13.  A DUST particle whose height is within [[-30, 30]] keeps it
    within [[-30, 30]] through any sequence of ticks and photo uploads,
    and its two horizontal coordinates never change. *)
Theorem dust_stays_in_band (cs : list Call) (e : Experience) (i : nat) (p : ParticleData) :
  nth_error (particles e) i = Some p ->
  type p = DUST ->
  -30 <= Vector3.y (position (mesh p)) <= 30 ->
  exists p',
    nth_error (particles (session cs e)) i = Some p' /\
    type p' = DUST /\
    -30 <= Vector3.y (position (mesh p')) <= 30 /\
    Vector3.x (position (mesh p')) = Vector3.x (position (mesh p)) /\
    Vector3.z (position (mesh p')) = Vector3.z (position (mesh p)).
Proof.
  intros Hp Ht Hy.
  destruct (session_nth
              (fun p p' =>
                 type p = DUST ->
                 type p' = DUST /\
                 (-30 <= Vector3.y (position (mesh p)) <= 30 ->
                  -30 <= Vector3.y (position (mesh p')) <= 30) /\
                 Vector3.x (position (mesh p')) = Vector3.x (position (mesh p)) /\
                 Vector3.z (position (mesh p')) = Vector3.z (position (mesh p))))
    with (cs := cs) (e := e) (i := i) (p := p) as (p' & Hp' & HR).
  - intros q Hq. repeat split; auto; lra.
  - intros p1 p2 p3 H12 H23 H1.
    destruct (H12 H1) as (H2 & Hy12 & Hx12 & Hz12).
    destruct (H23 H2) as (H3 & Hy23 & Hx23 & Hz23).
    repeat split; try congruence; apply Hy23, Hy12; assumption.
  - intros time state photos activePhoto j q Hq. unfold animate. rewrite Hq.
    destruct (fall_height q) as (Hkeep & Hwrap & Hx & Hz).
    split; [exact Hq|]. split; [|split; assumption].
    intros Hband.
    destruct (Rlt_le_dec (Vector3.y (position (mesh q)) - 0.05) (-30)) as [Hlt|Hge].
    + rewrite (Hwrap Hlt). lra.
    + rewrite (Hkeep Hge). lra.
  - exact Hp.
  - destruct (HR Ht) as (Ht' & Hy' & Hx' & Hz').
    exists p'. repeat split; try assumption; apply Hy'; assumption.
Qed.

End SessionFacts.

Section LongRuns.
Context `{QuaternionOps}.

(** X15.  Through [n] ticks in SCATTER mode an ORNAMENT particle's first
    two Euler angles grow by [n] times the x and y components of its spin
    rate, the third stays, and after the first tick the quaternion is the
    one of these angles: the spin builds up linearly and is never
    interpolated. *)
Theorem scatter_spin_accumulates (calls : nat -> R * State) (n : nat) (e : Experience)
    (i : nat) (p : ParticleData) :
  (forall k, mode (snd (calls k)) = SCATTER) ->
  nth_error (particles e) i = Some p ->
  type p = PARTICLE ->
  exists p',
    nth_error (particles (run calls n e)) i = Some p' /\
    rotation (mesh p')
    = Euler.mk (Euler.x (rotation (mesh p)) + INR n * Vector3.x (rotationSpeed p))
               (Euler.y (rotation (mesh p)) + INR n * Vector3.y (rotationSpeed p))
               (Euler.z (rotation (mesh p))) /\
    (forall m, n = S m -> quaternion (mesh p') = setFromEuler (rotation (mesh p'))).
Proof.
  intros Hmode Hp Ht.
  enough (Hrun : exists p',
             nth_error (particles (run calls n e)) i = Some p' /\
             type p' = PARTICLE /\
             rotationSpeed p' = rotationSpeed p /\
             rotation (mesh p')
             = Euler.mk (Euler.x (rotation (mesh p)) + INR n * Vector3.x (rotationSpeed p))
                        (Euler.y (rotation (mesh p)) + INR n * Vector3.y (rotationSpeed p))
                        (Euler.z (rotation (mesh p))) /\
             (forall m, n = S m ->
                quaternion (mesh p') = setFromEuler (rotation (mesh p')))).
  { destruct Hrun as (p' & Hp' & _ & _ & Hrot & Hq). exists p'. repeat split; assumption. }
  induction n as [|n (q & Hq & Htq & Hsq & Hrq & _)]; cbn [run].
  - exists p. repeat split; try assumption; [|intros m Hm; discriminate].
    replace (INR 0) with 0 by reflexivity.
    destruct (rotation (mesh p)) as [a b c]. cbn. f_equal; ring.
  - eexists. split; [apply update_nth; exact Hq|].
    rewrite animate_not_dust by (rewrite Htq; discriminate).
    unfold smooth, retarget. rewrite (Hmode n), Htq. cbn. rewrite Htq. cbn.
    rewrite Hsq, Hrq. cbn. rewrite S_INR.
    repeat split. f_equal; ring.
Qed.

End LongRuns.

Lemma scale_stays_bounded_witness :
  exists p,
    nth_error (particles (session (H := exampleOps) [Update 0 (stateIn FOCUS 0); AddPhoto]
                            (scene [zSpinner; newPhoto]))) 1 = Some p /\
    within 0.5 4.5 (scale (mesh p)).
Proof.
  eexists. split; [reflexivity|].
  apply (scale_stays_bounded (H := exampleOps) [Update 0 (stateIn FOCUS 0); AddPhoto]
           (scene [zSpinner; newPhoto])) with (i := 1%nat); [|reflexivity].
  intros i p Hp. destruct i as [|[|[|]]]; cbn in Hp; try discriminate;
    injection Hp as <-; unfold within; cbn; repeat split; lra.
Defined.

(** ** Where the targets lie *)

Lemma on_circle (a r : R) : (cos a * r) * (cos a * r) + (sin a * r) * (sin a * r) = r * r.
Proof.
  pose proof (sin2_cos2 a) as Hc. unfold Rsqr in Hc.
  replace (cos a * r * (cos a * r) + sin a * r * (sin a * r))
    with ((sin a * sin a + cos a * cos a) * (r * r)) by ring.
  rewrite Hc. ring.
Qed.

(** The rank of a particle created by [createParticles] is in [[0, 1)]. *)
Lemma rank_unit (i : nat) :
  (i < PARTICLE_COUNT)%nat -> 0 <= INR i / INR PARTICLE_COUNT < 1.
Proof.
  intros Hi. rewrite INR_PARTICLE_COUNT.
  pose proof (pos_INR i) as Hpos.
  apply lt_INR in Hi. rewrite INR_PARTICLE_COUNT in Hi.
  split.
  - apply Rmult_le_pos; [exact Hpos|]. apply Rlt_le, Rinv_0_lt_compat. lra.
  - apply Rmult_lt_reg_r with (r := 1500); [lra|].
    unfold Rdiv. rewrite Rmult_assoc, Rinv_l by lra. lra.
Qed.

Section TargetGeometry.
Context `{QuaternionOps}.

(** The targets a tick leaves on a particle that is not DUST are the ones
    [retarget] computes. *)
Lemma update_targets (time : R) (state : State) (e : Experience) (i : nat) (p : ParticleData) :
  nth_error (particles e) i = Some p ->
  type p <> DUST ->
  exists p',
    nth_error (particles (update time state e)) i = Some p' /\
    let q := retarget time state (photosOf (particles e))
               (activePhotoOf state (photosOf (particles e))) i p in
    targetPosition p' = targetPosition q /\
    targetRotation p' = targetRotation q /\
    targetScale p' = targetScale q.
Proof.
  intros Hp Hnd. eexists. split; [apply update_nth; exact Hp|].
  rewrite animate_not_dust by exact Hnd. cbv zeta. repeat split.
Qed.

(** X16.  In TREE mode the target of every ORNAMENT particle lies on the
    cone with apex at height 15 and radius 12 at height -10: its distance
    from the vertical axis is [12 / 25] of its depth below the apex.  For
    the particles of [createParticles], whose index is below
    [PARTICLE_COUNT], the target height is in [[-10, 15)] and the target
    is within 12 of the axis. *)
Theorem tree_targets_on_cone (time : R) (state : State) (e : Experience)
    (i : nat) (p : ParticleData) :
  mode state = TREE ->
  nth_error (particles e) i = Some p ->
  type p = PARTICLE ->
  exists p',
    nth_error (particles (update time state e)) i = Some p' /\
    let x := Vector3.x (targetPosition p') in
    let y := Vector3.y (targetPosition p') in
    let z := Vector3.z (targetPosition p') in
    x * x + z * z = (12 / 25 * (15 - y)) * (12 / 25 * (15 - y)) /\
    ((i < PARTICLE_COUNT)%nat -> -10 <= y < 15 /\ x * x + z * z <= 12 * 12).
Proof.
  intros Hm Hp Ht.
  destruct (update_targets time state e i p Hp) as (p' & Hp' & Hpos & _);
    [rewrite Ht; discriminate|].
  exists p'. split; [exact Hp'|]. cbv zeta in *. rewrite Hpos.
  destruct (retarget_tree_ornament time state (photosOf (particles e))
              (activePhotoOf state (photosOf (particles e))) i p Hm Ht) as (-> & _).
  cbn [Vector3.x Vector3.y Vector3.z]. rewrite on_circle.
  set (t := INR i / INR PARTICLE_COUNT).
  split; [field|].
  intros Hi. pose proof (rank_unit i Hi) as Hrank. fold t in Hrank.
  split; [lra|nra].
Qed.

(** X17.  In SCATTER mode the target of every ORNAMENT particle is at a
    distance between 10 and 20 from the vertical axis and at a height
    within [[-10, 10]], whatever the time and the rank. *)
Theorem scatter_targets_in_shell (time : R) (state : State) (e : Experience)
    (i : nat) (p : ParticleData) :
  mode state = SCATTER ->
  nth_error (particles e) i = Some p ->
  type p = PARTICLE ->
  exists p',
    nth_error (particles (update time state e)) i = Some p' /\
    let x := Vector3.x (targetPosition p') in
    let y := Vector3.y (targetPosition p') in
    let z := Vector3.z (targetPosition p') in
    10 * 10 <= x * x + z * z <= 20 * 20 /\
    -10 <= y <= 10 /\
    targetScale p' = Vector3.mk 1 1 1.
Proof.
  intros Hm Hp Ht.
  destruct (update_targets time state e i p Hp) as (p' & Hp' & Hpos & _ & Hsc);
    [rewrite Ht; discriminate|].
  exists p'. split; [exact Hp'|]. cbv zeta in *. rewrite Hpos, Hsc.
  unfold retarget. rewrite Hm, Ht. cbn. rewrite on_circle.
  set (t := INR i / INR PARTICLE_COUNT).
  pose proof (SIN_bound (time + t * 10)) as Hr.
  pose proof (SIN_bound (time * 0.5 + t * 5)) as Hy.
  repeat split; nra.
Qed.

(** X18.  In FOCUS mode the target of every particle other than DUST and
    the active photo lies on the cylinder of radius 40 about the vertical
    axis, with target scale 0.5; for an index below [PARTICLE_COUNT] its
    height is in [[-30, 30)]. *)
Theorem focus_background_on_cylinder (time : R) (state : State) (e : Experience)
    (i : nat) (p : ParticleData) :
  mode state = FOCUS ->
  nth_error (particles e) i = Some p ->
  type p <> DUST ->
  activePhotoOf state (photosOf (particles e)) <> Some i ->
  exists p',
    nth_error (particles (update time state e)) i = Some p' /\
    let x := Vector3.x (targetPosition p') in
    let y := Vector3.y (targetPosition p') in
    let z := Vector3.z (targetPosition p') in
    x * x + z * z = 40 * 40 /\
    ((i < PARTICLE_COUNT)%nat -> -30 <= y < 30) /\
    targetScale p' = Vector3.mk 0.5 0.5 0.5.
Proof.
  intros Hm Hp Hnd Hnot.
  destruct (update_targets time state e i p Hp Hnd) as (p' & Hp' & Hpos & _ & Hsc).
  exists p'. split; [exact Hp'|]. cbv zeta in *. rewrite Hpos, Hsc.
  assert (Hact : isActivePhoto (activePhotoOf state (photosOf (particles e))) i = false).
  { unfold isActivePhoto.
    destruct (activePhotoOf state (photosOf (particles e))) as [a|]; [|reflexivity].
    apply Nat.eqb_neq. congruence. }
  unfold retarget. rewrite Hm, Hact. cbn. rewrite on_circle.
  split; [reflexivity|]. split; [|reflexivity].
  intros Hi. pose proof (rank_unit i Hi) as Hrank. lra.
Qed.

(** X19.  The target of a PHOTO particle lies on a ring about the
    vertical axis: in TREE mode of radius 15 at height 5, in SCATTER mode
    of radius 20 at a height within [[-10, 10]].  Its angle on the ring is
    [2 * PI * k / photoCount] plus a drift with time, [k] being the number
    of photos before it in the array, so the photos are evenly spaced. *)
Theorem photo_targets_on_ring (time : R) (state : State) (e : Experience)
    (i : nat) (p : ParticleData) :
  nth_error (particles e) i = Some p ->
  type p = PHOTO ->
  exists p',
    nth_error (particles (update time state e)) i = Some p' /\
    let x := Vector3.x (targetPosition p') in
    let y := Vector3.y (targetPosition p') in
    let z := Vector3.z (targetPosition p') in
    let k := INR (length (photosOf (firstn i (particles e)))) in
    let photoCount := INR (length (photosOf (particles e))) in
    (mode state = TREE ->
       let angle := k / photoCount * PI * 2 + time * 0.1 in
       targetPosition p' = Vector3.mk (cos angle * 15) 5 (sin angle * 15) /\
       targetRotation p' = Euler.mk 0 (- angle) 0 /\
       x * x + z * z = 15 * 15) /\
    (mode state = SCATTER ->
       let angle := k / photoCount * PI * 2 - time * 0.05 in
       Vector3.x (targetPosition p') = cos angle * 20 /\
       Vector3.z (targetPosition p') = sin angle * 20 /\
       targetRotation p' = Euler.mk 0 time 0 /\
       x * x + z * z = 20 * 20 /\ -10 <= y <= 10).
Proof.
  intros Hp Ht.
  destruct (update_targets time state e i p Hp) as (p' & Hp' & Hpos & Hrot & _);
    [rewrite Ht; discriminate|].
  exists p'. split; [exact Hp'|]. cbv zeta in *. rewrite Hpos, Hrot.
  destruct (proj1 (photo_ordinal_of (particles e) i p Hp) Ht) as (Hidx & _).
  unfold retarget.
  split; intros Hm; rewrite Hm, Ht; cbn; rewrite Hidx, <- INR_IZR_INZ.
  - repeat split. apply on_circle.
  - repeat split; [apply on_circle| |];
      pose proof (SIN_bound (INR (length (photosOf (firstn i (particles e)))))); lra.
Qed.

End TargetGeometry.

(** ** The constructor *)

(** A loop whose body makes [make k] from the draw count [k] and makes
    [step] draws pushes [make k], [make (k + step)], ... in this order. *)
Lemma pushLoop_steps (body : nat -> ParticleData * nat) (make : nat -> ParticleData)
    (step count k : nat) (ps : list ParticleData) :
  (forall k, body k = (make k, (k + step)%nat)) ->
  pushLoop body count k ps
  = (ps ++ map (fun j => make (k + step * j)%nat) (seq 0 count), (k + step * count)%nat).
Proof.
  intros Hbody. revert k ps. induction count as [|c IH]; intros k ps.
  - cbn. rewrite app_nil_r. f_equal. lia.
  - cbn [pushLoop]. rewrite Hbody, IH. f_equal; [|lia].
    rewrite <- app_assoc. f_equal. cbn [seq map app].
    f_equal; [f_equal; lia|].
    rewrite <- seq_shift, map_map. apply map_ext. intros j. f_equal. lia.
Qed.

(** The ornament pushed at turn [j] of [createParticles] and the dust mote
    pushed at turn [j] of [createDust], by the draws they take. *)
Lemma construct_particles (random : Draws) :
  particles (construct random)
  = map (fun j => fst (createParticle random (6 * j))) (seq 0 PARTICLE_COUNT)
    ++ [newPhoto]
    ++ map (fun j => fst (createDustMote random (6 * PARTICLE_COUNT + 3 * j)))
           (seq 0 DUST_COUNT)
  /\ mainGroup_rotation (construct random) = Euler.mk 0 0 0.
Proof.
  unfold construct, createParticles, createDust.
  rewrite (pushLoop_steps (createParticle random)
             (fun k => fst (createParticle random k)) 6) by reflexivity.
  unfold addPhoto. cbn [particles mainGroup_rotation].
  rewrite (pushLoop_steps (createDustMote random)
             (fun k => fst (createDustMote random k)) 3) by reflexivity.
  cbn [particles mainGroup_rotation app]. split; [|reflexivity].
  rewrite <- app_assoc. reflexivity.
Qed.

(** The ornament at position [i] of the constructed scene. *)
Lemma construct_nth_ornament (random : Draws) (i : nat) :
  (i < PARTICLE_COUNT)%nat ->
  nth_error (particles (construct random)) i = Some (fst (createParticle random (6 * i))).
Proof.
  intros Hi. destruct (construct_particles random) as [-> _].
  rewrite nth_error_app1 by (now rewrite length_map, length_seq).
  rewrite nth_error_map.
  assert (Hseq : nth_error (seq 0 PARTICLE_COUNT) i = Some i).
  { rewrite (nth_error_nth' _ 0%nat) by (now rewrite length_seq).
    now rewrite seq_nth. }
  rewrite Hseq. reflexivity.
Qed.

Lemma photosFrom_none (ps : list ParticleData) (k : nat) :
  (forall p, In p ps -> type p <> PHOTO) -> photosFrom k ps = [].
Proof.
  revert k. induction ps as [|p ps IH]; intros k Hall; cbn; [reflexivity|].
  destruct (type p) eqn:Ht; cbn.
  - apply IH. intros q Hq. apply Hall. now right.
  - exfalso. apply (Hall p); [now left|exact Ht].
  - apply IH. intros q Hq. apply Hall. now right.
Qed.

(** X20.  The constructor builds [PARTICLE_COUNT + 1 + DUST_COUNT]
    particles: the ornaments at positions below [PARTICLE_COUNT], each at
    the origin; the photo wall at position [PARTICLE_COUNT]; the dust
    after it.  So the list of photos is that one position, and the photo
    wall has rank [t = 1]. *)
Theorem construct_layout (random : Draws) :
  length (particles (construct random)) = (PARTICLE_COUNT + 1 + DUST_COUNT)%nat /\
  (forall i, (i < PARTICLE_COUNT)%nat ->
     exists p, nth_error (particles (construct random)) i = Some p /\
               type p = PARTICLE /\ position (mesh p) = Vector3.mk 0 0 0) /\
  nth_error (particles (construct random)) PARTICLE_COUNT = Some newPhoto /\
  (forall i, (PARTICLE_COUNT < i < PARTICLE_COUNT + 1 + DUST_COUNT)%nat ->
     exists p, nth_error (particles (construct random)) i = Some p /\ type p = DUST) /\
  photosOf (particles (construct random)) = [PARTICLE_COUNT] /\
  INR PARTICLE_COUNT / INR PARTICLE_COUNT = 1.
Proof.
  destruct (construct_particles random) as [Hps _]. rewrite Hps.
  set (orn := map (fun j => fst (createParticle random (6 * j))) (seq 0 PARTICLE_COUNT)).
  set (dust := map (fun j => fst (createDustMote random (6 * PARTICLE_COUNT + 3 * j)))
                   (seq 0 DUST_COUNT)).
  assert (Hlo : length orn = PARTICLE_COUNT) by (unfold orn; now rewrite length_map, length_seq).
  assert (Hld : length dust = DUST_COUNT) by (unfold dust; now rewrite length_map, length_seq).
  assert (Horn : forall p, In p orn -> type p = PARTICLE /\ position (mesh p) = Vector3.mk 0 0 0).
  { intros p Hin. unfold orn in Hin. apply in_map_iff in Hin.
    destruct Hin as (j & <- & _). split; reflexivity. }
  assert (Hdust : forall p, In p dust -> type p = DUST).
  { intros p Hin. unfold dust in Hin. apply in_map_iff in Hin.
    destruct Hin as (j & <- & _). reflexivity. }
  split; [|split; [|split; [|split; [|split]]]].
  - rewrite !length_app, Hlo, Hld. cbn [length]. lia.
  - intros i Hi.
    destruct (nth_error orn i) as [p|] eqn:Hp;
      [|apply nth_error_None in Hp; lia].
    exists p. split; [rewrite nth_error_app1 by lia; exact Hp|].
    apply Horn. eapply nth_error_In. exact Hp.
  - rewrite nth_error_app2 by lia. rewrite Hlo, Nat.sub_diag. reflexivity.
  - intros i Hi. rewrite nth_error_app2 by lia. rewrite Hlo.
    destruct (i - PARTICLE_COUNT)%nat as [|d] eqn:Hd; [lia|]. cbn [app nth_error].
    destruct (nth_error dust d) as [p|] eqn:Hp;
      [|apply nth_error_None in Hp; lia].
    exists p. split; [reflexivity|]. apply Hdust. eapply nth_error_In. exact Hp.
  - unfold photosOf. rewrite !photosFrom_app.
    rewrite photosFrom_none
      by (intros p Hin; destruct (Horn p Hin) as [Ht _]; rewrite Ht; discriminate).
    cbn [app photosFrom newPhoto type ParticleType_eqb length].
    rewrite photosFrom_none
      by (intros p Hin; rewrite (Hdust p Hin); discriminate).
    rewrite Hlo. reflexivity.
  - rewrite INR_PARTICLE_COUNT. lra.
Qed.

(** What one turn of each loop pushes, when the draws are in [[0, 1)]. *)
Lemma createParticle_bounds (random : Draws) (k : nat) :
  (forall k, 0 <= random k < 1) ->
  let p := fst (createParticle random k) in
  within (-1) 1 (velocity p) /\
  within 0 0.05 (rotationSpeed p) /\
  within 0.5 4.5 (scale (mesh p)) /\
  (type p = DUST -> within (-30) 30 (position (mesh p))).
Proof.
  intros Hrand.
  pose proof (Hrand k). pose proof (Hrand (k + 1)%nat). pose proof (Hrand (k + 2)%nat).
  pose proof (Hrand (k + 3)%nat). pose proof (Hrand (k + 4)%nat).
  pose proof (Hrand (k + 5)%nat).
  unfold createParticle, within, multiplyScalar.
  cbn [fst newOrnament velocity rotationSpeed scale mesh type position
       Vector3.x Vector3.y Vector3.z].
  repeat split; try lra; discriminate.
Qed.

Lemma createDustMote_bounds (random : Draws) (k : nat) :
  (forall k, 0 <= random k < 1) ->
  let p := fst (createDustMote random k) in
  within (-1) 1 (velocity p) /\
  within 0 0.05 (rotationSpeed p) /\
  within 0.5 4.5 (scale (mesh p)) /\
  (type p = DUST -> within (-30) 30 (position (mesh p))).
Proof.
  intros Hrand.
  pose proof (Hrand k). pose proof (Hrand (k + 1)%nat). pose proof (Hrand (k + 2)%nat).
  unfold createDustMote, within.
  cbn [fst newDust velocity rotationSpeed scale mesh type position
       Vector3.x Vector3.y Vector3.z].
  repeat split; lra.
Qed.

Section ConstructedRuns.
Context `{QuaternionOps}.

(** X21.  Until a photo is uploaded the photo wall built by the
    constructor is the active photo for every state: with one photo,
    [activePhotoIndex % photos.length] is 0 whatever the index, so each
    pinch focuses the same photo. *)
Theorem photo_wall_always_active (random : Draws) (calls : nat -> R * State) (n : nat)
    (state : State) :
  activePhotoOf state (photosOf (particles (run calls n (construct random))))
  = Some PARTICLE_COUNT.
Proof.
  rewrite run_photos.
  destruct (construct_particles random) as [Hps _].
  assert (Hphotos : photosOf (particles (construct random)) = [PARTICLE_COUNT]).
  { rewrite Hps. unfold photosOf. rewrite !photosFrom_app.
    rewrite photosFrom_none.
    - cbn [app photosFrom newPhoto type ParticleType_eqb length].
      rewrite photosFrom_none.
      + now rewrite length_map, length_seq.
      + intros p Hin. apply in_map_iff in Hin. destruct Hin as (j & <- & _). discriminate.
    - intros p Hin. apply in_map_iff in Hin. destruct Hin as (j & <- & _). discriminate. }
  rewrite Hphotos. unfold activePhotoOf. cbn [length].
  rewrite Nat.mod_1_r. reflexivity.
Qed.

(** X22.  When every value of [Math.random()] is in [[0, 1)], in the
    scene the constructor builds and after any sequence of ticks and photo
    uploads: every velocity component is within [[-1, 1]], every spin
    rate component within [[0, 0.05]], every scale component within
    [[0.5, 4.5]], and every DUST particle is at a height within
    [[-30, 30]] with horizontal coordinates within [[-30, 30]]. *)
Theorem constructed_scene_bounds (random : Draws) (cs : list Call) :
  (forall k, 0 <= random k < 1) ->
  forall i p,
    nth_error (particles (session cs (construct random))) i = Some p ->
    within (-1) 1 (velocity p) /\
    within 0 0.05 (rotationSpeed p) /\
    within 0.5 4.5 (scale (mesh p)) /\
    (type p = DUST -> within (-30) 30 (position (mesh p))).
Proof.
  intros Hrand.
  apply (session_invariant
           (fun p => within (-1) 1 (velocity p) /\
                     within 0 0.05 (rotationSpeed p) /\
                     within 0.5 4.5 (scale (mesh p)) /\
                     (type p = DUST -> within (-30) 30 (position (mesh p))))).
  - intros time state photos activePhoto i p (Hv & Hs & Hsc & Hd).
    destruct (animate_keeps time state photos activePhoto i p) as [-> ->].
    split; [exact Hv|]. split; [exact Hs|].
    split; [now apply animate_scale_within|].
    rewrite animate_type. intros Ht. specialize (Hd Ht).
    unfold animate. rewrite Ht.
    destruct (fall_height p) as (Hkeep & Hwrap & Hx & Hz).
    unfold within in *. rewrite Hx, Hz.
    destruct Hd as (Hdx & Hdy & Hdz). split; [exact Hdx|]. split; [|exact Hdz].
    destruct (Rlt_le_dec (Vector3.y (position (mesh p)) - 0.05) (-30)) as [Hlt|Hge].
    + rewrite (Hwrap Hlt). lra.
    + rewrite (Hkeep Hge). lra.
  - unfold within. cbn. repeat split; try lra; discriminate.
  - intros i p Hp. apply nth_error_In in Hp.
    destruct (construct_particles random) as [Hps _]. rewrite Hps in Hp.
    apply in_app_or in Hp. destruct Hp as [Hp | Hp].
    + apply in_map_iff in Hp. destruct Hp as (j & <- & _).
      now apply createParticle_bounds.
    + apply in_app_or in Hp. destruct Hp as [[<- | []] | Hp].
      * unfold within. cbn. repeat split; try lra; discriminate.
      * apply in_map_iff in Hp. destruct Hp as (j & <- & _).
        now apply createDustMote_bounds.
Qed.

End ConstructedRuns.

(** ** Geometry and material of the ornaments *)

(** X23.  An ornament has the candy-cane geometry exactly when it has the
    candy-cane material, namely when its index is a multiple of 20; a
    candy cane always takes the place of a box, never of a sphere; every
    other ornament is a box when its index is even and a sphere when it is
    odd, in gold, green or red as its index is 0, 1 or 2 modulo 3. *)
Theorem ornament_appearance (i : nat) :
  (geometryOf i = candyCaneGeometry <-> (i mod 20 = 0)%nat) /\
  (materialOf i = caneMat <-> (i mod 20 = 0)%nat) /\
  (geometryOf i = candyCaneGeometry -> (i mod 2 = 0)%nat) /\
  (geometryOf i = boxGeo <-> (i mod 2 = 0)%nat /\ (i mod 20 <> 0)%nat) /\
  (geometryOf i = sphereGeo <-> (i mod 2 = 1)%nat) /\
  (materialOf i = goldMat <-> (i mod 3 = 0)%nat /\ (i mod 20 <> 0)%nat) /\
  (materialOf i = greenMat <-> (i mod 3 = 1)%nat /\ (i mod 20 <> 0)%nat) /\
  (materialOf i = redMat <-> (i mod 3 = 2)%nat /\ (i mod 20 <> 0)%nat).
Proof.
  assert (H2 : (i mod 2 < 2)%nat) by (apply Nat.mod_upper_bound; lia).
  assert (H3 : (i mod 3 < 3)%nat) by (apply Nat.mod_upper_bound; lia).
  assert (H20 : (i mod 20 = 0 -> i mod 2 = 0)%nat).
  { intros Hz. apply Nat.Div0.mod_divides in Hz. destruct Hz as [c ->].
    replace (20 * c)%nat with (c * 10 * 2)%nat by lia. apply Nat.Div0.mod_mul. }
  unfold geometryOf, materialOf.
  destruct (Nat.eqb_spec (i mod 20) 0) as [E20|E20];
    destruct (Nat.eqb_spec (i mod 2) 0) as [E2|E2];
    destruct (Nat.eqb_spec (i mod 3) 0) as [E3|E3];
    destruct (Nat.eqb_spec (i mod 3) 1) as [E3'|E3'];
    repeat split; intros; try discriminate; try congruence; try tauto; try lia.
Qed.

(** ** The further properties on example scenes *)

Lemma dust_stays_in_band_witness :
  exists p',
    nth_error (particles (session (H := exampleOps)
                            [Update 0 (stateIn TREE 0); AddPhoto; Update 1 (stateIn FOCUS 1)]
                            (scene [topDust]))) 0 = Some p' /\
    -30 <= Vector3.y (position (mesh p')) <= 30.
Proof.
  destruct (dust_stays_in_band (H := exampleOps)
              [Update 0 (stateIn TREE 0); AddPhoto; Update 1 (stateIn FOCUS 1)]
              (scene [topDust]) 0 topDust eq_refl eq_refl)
    as (p' & Hp' & _ & Hy & _).
  - cbn. lra.
  - exists p'. split; assumption.
Defined.

Lemma scatter_spin_accumulates_witness :
  exists p',
    nth_error (particles (run (H := exampleOps) (still (stateIn SCATTER 0)) 3
                            (scene [spinner]))) 0 = Some p' /\
    rotation (mesh p') = Euler.mk (0 + INR 3 * 0.01) (0 + INR 3 * 0.02) 0.
Proof.
  destruct (scatter_spin_accumulates (H := exampleOps) (still (stateIn SCATTER 0)) 3
              (scene [spinner]) 0 spinner (fun _ => eq_refl) eq_refl eq_refl)
    as (p' & Hp' & Hrot & _).
  exists p'. split; [exact Hp'|exact Hrot].
Defined.

Lemma tree_targets_on_cone_witness :
  exists p',
    nth_error (particles (update (H := exampleOps) 7 (stateIn TREE 0) (scene [spinner]))) 0
    = Some p' /\
    -10 <= Vector3.y (targetPosition p') < 15.
Proof.
  destruct (tree_targets_on_cone (H := exampleOps) 7 (stateIn TREE 0) (scene [spinner])
              0 spinner eq_refl eq_refl eq_refl)
    as (p' & Hp' & _ & Hbound).
  exists p'. split; [exact Hp'|].
  apply Hbound. unfold PARTICLE_COUNT. lia.
Defined.

Lemma scatter_targets_in_shell_witness :
  exists p',
    nth_error (particles (update (H := exampleOps) 7 (stateIn SCATTER 0) (scene [spinner]))) 0
    = Some p' /\
    -10 <= Vector3.y (targetPosition p') <= 10.
Proof.
  destruct (scatter_targets_in_shell (H := exampleOps) 7 (stateIn SCATTER 0) (scene [spinner])
              0 spinner eq_refl eq_refl eq_refl)
    as (p' & Hp' & _ & Hy & _).
  exists p'. split; assumption.
Defined.

Lemma focus_background_on_cylinder_witness :
  exists p',
    nth_error (particles (update (H := exampleOps) 7 (stateIn FOCUS 1)
                            (scene [spinner; newPhoto]))) 0 = Some p' /\
    targetScale p' = Vector3.mk 0.5 0.5 0.5.
Proof.
  destruct (focus_background_on_cylinder (H := exampleOps) 7 (stateIn FOCUS 1)
              (scene [spinner; newPhoto]) 0 spinner eq_refl eq_refl)
    as (p' & Hp' & _ & _ & Hsc).
  - discriminate.
  - discriminate.
  - exists p'. split; assumption.
Defined.

Lemma photo_targets_on_ring_witness :
  exists p',
    nth_error (particles (update (H := exampleOps) 7 (stateIn TREE 0)
                            (scene [newPhoto; spinner; newPhoto]))) 2 = Some p' /\
    Vector3.y (targetPosition p') = 5.
Proof.
  destruct (photo_targets_on_ring (H := exampleOps) 7 (stateIn TREE 0)
              (scene [newPhoto; spinner; newPhoto]) 2 newPhoto eq_refl eq_refl)
    as (p' & Hp' & Htree & _).
  exists p'. split; [exact Hp'|].
  destruct (Htree eq_refl) as (Hpos & _). rewrite Hpos. reflexivity.
Defined.

Lemma constructed_scene_bounds_witness :
  exists p,
    nth_error (particles (session (H := exampleOps) [] (construct halves))) 0 = Some p /\
    within (-1) 1 (velocity p).
Proof.
  exists (fst (createParticle halves (6 * 0))).
  assert (Hp : nth_error (particles (session (H := exampleOps) [] (construct halves))) 0
               = Some (fst (createParticle halves (6 * 0)))).
  { apply (construct_nth_ornament halves 0). unfold PARTICLE_COUNT. lia. }
  split; [exact Hp|].
  apply (constructed_scene_bounds (H := exampleOps) halves []) with (i := 0%nat);
    [|exact Hp].
  intros k. unfold halves. lra.
Defined.

(** * The smoother on doubles *)

(** ** Scalar steps *)






(** ** Particles *)




(** ** Claim on repeated smoothing *)

Section SmoothingClaim.
Context `{QuaternionOps}.


End SmoothingClaim.


